(** * LoanRepaymentPredictor: decision tree, random forest and k-fold
      cross-validation

    A shallow embedding of [DecisionTree.h], of the two versions of
    [RandomForest.h] and of [K-foldCrossValidation.h], with the properties
    of the written specification stated and settled on it.

    Conventions.
    - A [std::vector] is a [list]; [v[i]] is a checked read that faults
      when [i] is out of range (undefined behaviour in C++).
    - [size_t] values are [nat], [int] values are [Z].  Row counts, vote
      counts and fold bounds never exceed the size of a vector that is
      held in memory, so no wrap-around is reachable on them.  The two
      places where the code subtracts 1 from a [size_t] that can be 0
      ([size() - 1] in [train], [end - 1] in [find_best_split]) wrap to
      [SIZE_MAX] as they do in the code.
    - [double] is kept abstract: the development is parametric in the
      floating-point operations the code uses ([DoubleOps]), and assumes
      no law about them.
    - [std::map<int,int>] is an association list kept in ascending key
      order, which is the order in which the code iterates over it.
    - The random choices of the code (shuffles, bootstrap draws) are
      inputs of the model. *)

From Stdlib Require Import ZArith QArith Lia.
From stdpp Require Import base tactics option list numbers sorting.

Local Open Scope Z_scope.
Local Open Scope nat_scope.

(** ** Floating-point interface *)

(** The operations on [double] that the sources use. *)
Class DoubleOps := {
  double : Type;
  dlt : double -> double -> bool;          (* a < b *)
  dneq : double -> double -> bool;         (* a != b *)
  dadd : double -> double -> double;
  dsub : double -> double -> double;
  dmul : double -> double -> double;
  ddiv : double -> double -> double;
  of_int : Z -> double;                    (* int to double *)
  of_size : nat -> double;                 (* size_t to double *)
  to_int : double -> Z;                    (* static_cast<int> *)
  dmax : double;                           (* numeric_limits<double>::max() *)
}.

(** ** Faults and results *)

Inductive fault : Type :=
  | OutOfFuel        (* the fuel of the model ran out: no fault of the code *)
  | OutOfRange       (* operator[] or an iterator outside the vector *)
  | NullPointer      (* an empty unique_ptr dereferenced *)
  | DivideByZero     (* int division by zero *)
  | LengthError.     (* std::length_error: a vector constructed with a
                        negative size *)

Inductive result (A : Type) : Type :=
  | Ok (a : A)
  | Fault (f : fault).
Arguments Ok {A} a.
Arguments Fault {A} f.

#[global] Instance result_ret : MRet result := fun _ a => Ok a.
#[global] Instance result_bind : MBind result := fun _ _ k m =>
  match m with
  | Ok a => k a
  | Fault f => Fault f
  end.

Definition is_Ok {A} (r : result A) : Prop := exists a, r = Ok a.

(** [v[i]] with a [size_t] index. *)
Definition vec_at {A} (v : list A) (i : nat) : result A :=
  match v !! i with
  | Some a => Ok a
  | None => Fault OutOfRange
  end.

(** [v[i]] with an [int] index: a negative [int] converts to a [size_t]
    beyond every vector. *)
Definition vec_at_int {A} (v : list A) (i : Z) : result A :=
  if (i <? 0)%Z then Fault OutOfRange else vec_at v (Z.to_nat i).

(** The largest [size_t], 64 bits wide. *)
Definition SIZE_MAX : N := 2 ^ 64 - 1.

(** [n - 1] on [size_t]: [0 - 1] wraps to [SIZE_MAX]. *)
Definition size_pred (n : nat) : nat :=
  match n with
  | O => N.to_nat SIZE_MAX
  | S m => m
  end.

(** A [size_t] converted to [int]: modulo [2^32], into the range of
    [int]. *)
Definition int_of_size (i : nat) : Z :=
  ((Z.of_nat i + 2 ^ 31) mod 2 ^ 32 - 2 ^ 31)%Z.

(** [for (size_t i = start; n iterations; ++i) body], threading the
    variables the body updates. *)
Fixpoint for_range {St} (i n : nat) (body : nat -> St -> result St) (s : St)
  : result St :=
  match n with
  | O => Ok s
  | S n' => s' ← body i s; for_range (S i) n' body s'
  end.

(** [for (auto& x : v) body], threading the variables the body updates. *)
Fixpoint for_each {A St} (v : list A) (body : A -> St -> result St) (s : St)
  : result St :=
  match v with
  | [] => Ok s
  | x :: rest => s' ← body x s; for_each rest body s'
  end.

(** [std::swap(v[a], v[b])]. *)
Definition vec_swap {A} (v : list A) (a b : nat) : result (list A) :=
  x ← vec_at v a;
  y ← vec_at v b;
  Ok (<[a := y]> (<[b := x]> v)).

(** ** std::map<int,int> *)

(** [m[k]++]: the entry is created at 0 when absent; keys stay ascending. *)
Fixpoint map_incr (k : Z) (m : list (Z * Z)) : list (Z * Z) :=
  match m with
  | [] => [(k, 1%Z)]
  | (k', c) :: m' =>
      if (k <? k')%Z then (k, 1%Z) :: m
      else if (k =? k')%Z then (k', (c + 1)%Z) :: m'
      else (k', c) :: map_incr k m'
  end.

(** [m[k]--]. *)
Fixpoint map_decr (k : Z) (m : list (Z * Z)) : list (Z * Z) :=
  match m with
  | [] => [(k, (-1)%Z)]
  | (k', c) :: m' =>
      if (k <? k')%Z then (k, (-1)%Z) :: m
      else if (k =? k')%Z then (k', (c - 1)%Z) :: m'
      else (k', c) :: map_decr k m'
  end.

(** The scan shared by [determine_label] and the map-based
    [RandomForest::predict]:
    [for (pair : m) if (pair.second > max_count) { max_count = pair.second;
    majority = pair.first; }], from [majority = -1], [max_count = 0]. *)
Definition majority_step (st : Z * Z) (p : Z * Z) : Z * Z :=
  if (snd st <? snd p)%Z then (fst p, snd p) else st.

Definition majority_scan (m : list (Z * Z)) : Z :=
  fst (fold_left majority_step m ((-1)%Z, 0%Z)).

(** ** Node (Node.h is not part of the sources at hand: the fields are
    those [DecisionTree.h] reads and writes) *)
#[warnings="-register-all"]
Inductive Node `{DoubleOps} : Type := mkNode {
  is_leaf : bool;
  label : Z;
  feature_index : Z;
  threshold : double;
  gini_index : double;
  left_child : option Node;     (* unique_ptr<Node> left *)
  right_child : option Node;    (* unique_ptr<Node> right *)
}.
Arguments mkNode {_} _ _ _ _ _ _ _.

(** What the sources leave to the platform. *)
Class Platform `{DoubleOps} := {
  (* [new Node()]: the default-constructed node of Node.h *)
  new_Node : Node;
  (* the content of [double best_threshold;] before any assignment; it is
     read only when [best_feature] is still -1, and the first row access
     of [partition_data] then faults *)
  indeterminate : double;
  (* the order in which an [unordered_set<int>] filled with the given
     distinct values is iterated *)
  iteration_order : list Z -> list Z;
  iteration_order_perm : forall l, iteration_order l ≡ₚ l;
}.

(** * DecisionTree.h *)
Module DecisionTree.
Section DecisionTree.
Context `{!DoubleOps, !Platform}.

(** ** partition_data *)

Definition partition_step (feature_index : Z) (threshold : double)
    (i : nat) (st : nat * list (list double))
  : result (nat * list (list double)) :=
  let '(mid, features) := st in
  row ← vec_at features i;
  v ← vec_at_int row feature_index;
  if dlt v threshold then
    features' ← vec_swap features mid i;
    Ok (S mid, features')
  else Ok (mid, features).

(** The loop of [partition_data]: the pivot [mid] before the degenerate
    guard, and the reordered matrix. *)
Definition partition_loop (features : list (list double)) (start end_ : nat)
    (feature_index : Z) (threshold : double)
  : result (nat * list (list double)) :=
  for_range start (end_ - start) (partition_step feature_index threshold)
    (start, features).

(** The matrix is passed by reference: it is returned with the split
    index.  On the ranges [start <= end] that [build_tree] passes,
    [end - start] does not wrap. *)
Definition partition_data (features : list (list double)) (start end_ : nat)
    (feature_index : Z) (threshold : double)
  : result (nat * list (list double)) :=
  '(mid, features') ← partition_loop features start end_ feature_index threshold;
  let mid' :=
    if (mid =? start) || (mid =? end_)
    then start + (end_ - start) / 2
    else mid in
  Ok (mid', features').

(** ** should_be_leaf *)

(** The loop [for (i = start + 1; i < end; ++i) if (labels[i] != first_label)
    return false;] with [n] iterations left. *)
Fixpoint same_label_from (labels : list Z) (first_label : Z) (i n : nat)
  : result bool :=
  match n with
  | O => Ok true
  | S n' =>
      l ← vec_at labels i;
      if (l =? first_label)%Z
      then same_label_from labels first_label (S i) n'
      else Ok false
  end.

Definition should_be_leaf (labels : list Z) (start end_ : nat) : result bool :=
  first_label ← vec_at labels start;
  same_label_from labels first_label (S start) (end_ - S start).

(** ** determine_label *)

(** [for (i = start; i < end; ++i) counts[labels[i]]++]. *)
Definition count_labels (labels : list Z) (start end_ : nat)
  : result (list (Z * Z)) :=
  for_range start (end_ - start)
    (fun i counts => l ← vec_at labels i; Ok (map_incr l counts)) [].

Definition determine_label (labels : list Z) (start end_ : nat) : result Z :=
  label_counts ← count_labels labels start end_;
  Ok (majority_scan label_counts).

(** ** calculate_gini_index *)

(** [for (pair : counts) { p = pair.second / (double)size; gini -= p * p; }]
    from [gini = 1.0].  The keys of the two maps are labels converted to
    [double]; the conversion is exact and keeps their order, so the maps
    are keyed by the labels here. *)
Definition side_gini (counts : list (Z * Z)) (size : Z) : double :=
  fold_left
    (fun gini pair =>
       let p := ddiv (of_int (snd pair)) (of_int size) in
       dsub gini (dmul p p))
    counts (of_int 1).

Definition calculate_gini_index (left_counts right_counts : list (Z * Z))
    (left_size right_size : Z) : double :=
  let left_gini := side_gini left_counts left_size in
  let right_gini := side_gini right_counts right_size in
  ddiv (dadd (dmul left_gini (of_int left_size))
             (dmul right_gini (of_int right_size)))
       (of_int (left_size + right_size)).

(** ** find_best_split *)

Record SplitResult := mkSplitResult { gini : double; split_threshold : double }.

(** The variables the sweep of [find_best_split] updates. *)
Record Sweep := mkSweep {
  left_counts : list (Z * Z);
  right_counts : list (Z * Z);
  left_size : Z;
  right_size : Z;
  best_gini : double;
  best_threshold : double;
}.

Definition sweep_step (features : list (list double)) (labels : list Z)
    (feature_index : Z) (i : nat) (s : Sweep) : result Sweep :=
  l ← vec_at labels i;
  let lc := map_incr l (left_counts s) in
  let rc := map_decr l (right_counts s) in
  let ls := (left_size s + 1)%Z in
  let rs := (right_size s - 1)%Z in
  row ← vec_at features i;
  a ← vec_at_int row feature_index;
  next ← vec_at features (i + 1);
  b ← vec_at_int next feature_index;
  if dneq a b then
    let th := ddiv (dadd a b) (of_int 2) in
    let g := calculate_gini_index lc rc ls rs in
    if dlt g (best_gini s)
    then Ok (mkSweep lc rc ls rs g th)
    else Ok (mkSweep lc rc ls rs (best_gini s) (best_threshold s))
  else Ok (mkSweep lc rc ls rs (best_gini s) (best_threshold s)).

(** The sweep runs over [start <= i < end - 1], where [end - 1] is a
    [size_t]: at [end = 0] it wraps, and the sweep goes on until it reads
    outside a vector.  [build_tree] calls it on ranges of two rows or
    more. *)
Definition find_best_split (features : list (list double)) (labels : list Z)
    (start end_ : nat) (feature_index : Z) : result SplitResult :=
  rc ← count_labels labels start end_;
  s ← for_range start (size_pred end_ - start)
        (sweep_step features labels feature_index)
        (mkSweep [] rc 0%Z (Z.of_nat (end_ - start)) dmax (of_int 0));
  Ok (mkSplitResult (best_gini s) (best_threshold s)).

(** ** build_tree *)

(** The variables of the split search of [build_tree]. *)
Record Best := mkBest {
  best_feature : Z;
  best_split_threshold : double;
  best_split_gini : double;
}.

(** [for (int feature_index : sampled_features) ...]: [sampled_features] is
    the candidate set in the order the [unordered_set] iterates. *)
Fixpoint search_split (features : list (list double)) (labels : list Z)
    (start end_ : nat) (sampled_features : list Z) (b : Best) : result Best :=
  match sampled_features with
  | [] => Ok b
  | feature_index :: rest =>
      r ← find_best_split features labels start end_ feature_index;
      search_split features labels start end_ rest
        (if dlt (gini r) (best_split_gini b)
         then mkBest feature_index (split_threshold r) (gini r)
         else b)
  end.

Definition make_leaf (node : Node) (l : Z) : Node :=
  mkNode true l (feature_index node) (threshold node) (gini_index node)
         (left_child node) (right_child node).

Definition make_split (node : Node) (b : Best) (l r : Node) : Node :=
  mkNode (is_leaf node) (label node) (best_feature b)
         (best_split_threshold b) (best_split_gini b) (Some l) (Some r).

(** [build_tree] returns the node it was given, as updated, together with
    the feature matrix, which it reorders in place.  [fuel] bounds the
    depth of the recursion. *)
Fixpoint build_tree (fuel : nat) (node : Node) (features : list (list double))
    (labels : list Z) (start end_ : nat) (sampled_features : list Z)
  : result (Node * list (list double)) :=
  match fuel with
  | O => Fault OutOfFuel
  | S fuel' =>
      if end_ <=? start then Ok (node, features)
      else
        leaf ← should_be_leaf labels start end_;
        if (leaf : bool) then
          l ← determine_label labels start end_;
          Ok (make_leaf node l, features)
        else
          b ← search_split features labels start end_ sampled_features
                (mkBest (-1)%Z indeterminate dmax);
          '(split_index, features1) ←
            partition_data features start end_
              (best_feature b) (best_split_threshold b);
          '(l, features2) ←
            build_tree fuel' new_Node features1 labels start split_index
              sampled_features;
          '(r, features3) ←
            build_tree fuel' new_Node features2 labels split_index end_
              sampled_features;
          Ok (make_split node b l r, features3)
  end.

(** ** DecisionTree::train *)

(** [vector<double>(row.begin(), row.end() - 1)], then [row.back()]: on
    an empty row the constructor is given a negative length and throws
    [std::length_error] before anything is read. *)
Definition split_row (row : list double) : result (list double * double) :=
  match last row with
  | Some l => Ok (removelast row, l)
  | None => Fault LengthError
  end.

Fixpoint split_rows (data_vec : list (list double))
  : result (list (list double) * list Z) :=
  match data_vec with
  | [] => Ok ([], [])
  | row :: rest =>
      '(f, l) ← split_row row;
      '(fs, ls) ← split_rows rest;
      Ok (f :: fs, to_int l :: ls)
  end.

(** A [DecisionTree] is its root node. *)
Definition train (root : Node) (data_vec : list (list double))
    (sampled_features : list Z) : result Node :=
  modifiable_sample_features ←
    match sampled_features with
    | [] =>
        row0 ← vec_at data_vec 0;
        match length row0 with
        | O =>
            (* size() - 1 wraps: i runs through every size_t below
               SIZE_MAX, and insert(i) converts it to int *)
            Ok (iteration_order
                  (remove_dups
                     (map int_of_size (seq 0 (N.to_nat SIZE_MAX)))))
        | S m =>
            (* the columns 0 .. size() - 2: a row held in memory has
               fewer than 2^31 columns, so int(i) is i *)
            Ok (iteration_order (map Z.of_nat (seq 0 m)))
        end
    | _ => Ok sampled_features
    end;
  '(features, labels) ← split_rows data_vec;
  '(root', _) ←
    build_tree (S (length data_vec)) root features labels 0 (length data_vec)
      modifiable_sample_features;
  Ok root'.

(** ** DecisionTree::predict *)

Fixpoint predict (node : Node) (feature : list double) : result Z :=
  match node with
  | mkNode leaf lab fi th _ l r =>
      if leaf then Ok lab
      else
        match vec_at_int feature fi with
        | Fault f => Fault f
        | Ok v =>
            if dlt v th
            then match l with
                 | Some n => predict n feature
                 | None => Fault NullPointer
                 end
            else match r with
                 | Some n => predict n feature
                 | None => Fault NullPointer
                 end
        end
  end.

End DecisionTree.
End DecisionTree.

(** * RandomForest.h, the version with the vote map, the 80/20 split and
      the cross-validation *)
Module RandomForest.
Section RandomForest.
Context `{!DoubleOps, !Platform}.

Record t := mk {
  num_trees_ : Z;
  trees_ : list Node;     (* a DecisionTree is its root node *)
}.

(** The random choices of one call of [train]. *)
Record Draws := mkDraws {
  shuffled : list nat;          (* the indices 0 .. n-1 after std::shuffle *)
  drawn : nat -> nat -> nat;    (* dist(rng) for tree i, sample j *)
}.

(** [RandomForest(num_trees)]: [trees_(num_trees)] default-constructs the
    trees, each with a fresh root. *)
Definition create (num_trees : Z) : result t :=
  if (num_trees <? 0)%Z then Fault LengthError
  else Ok (mk num_trees (replicate (Z.to_nat num_trees) new_Node)).

(** The literal [0.2]: the correctly rounded quotient of 2 by 10. *)
Definition test_fraction : double := ddiv (of_int 2) (of_int 10).

(** [out.push_back(data[indices[i]])] for [i] from [from], [n] times. *)
Definition push_rows {A} (data : list A) (indices : list nat) (from n : nat)
    (out : list A) : result (list A) :=
  for_range from n
    (fun i out => idx ← vec_at indices i; row ← vec_at data idx;
                  Ok (out ++ [row]))
    out.

Definition splitData {A} (data : list A) (indices : list nat)
    (train_data test_data : list A) (test_size : double)
  : result (list A * list A) :=
  let split_index :=
    to_int (dmul (of_size (length data)) (dsub (of_int 1) test_size)) in
  train_data' ← push_rows data indices 0 (Z.to_nat split_index) train_data;
  test_data' ←
    (if (split_index <? 0)%Z then Fault OutOfRange  (* indices[i], i < 0 *)
     else push_rows data indices (Z.to_nat split_index)
            (Z.to_nat (Z.of_nat (length data) - split_index)) test_data);
  Ok (train_data', test_data').

(** [draw j] is the index the distribution returns at step [j]. *)
Definition createBootstrapSample {A} (data : list A) (draw : nat -> nat)
  : result (list A) :=
  for_range 0 (length data)
    (fun j samples => row ← vec_at data (draw j); Ok (samples ++ [row])) [].

Definition train (forest : t) (data_vec : list (list double)) (r : Draws)
  : result t :=
  '(train_data, test_data) ←
    splitData data_vec (shuffled r) [] [] test_fraction;
  trees ←
    for_range 0 (Z.to_nat (num_trees_ forest))
      (fun i trees =>
         bootstrap_sample ← createBootstrapSample train_data (drawn r i);
         tree ← vec_at trees i;
         tree' ← DecisionTree.train tree bootstrap_sample [];
         Ok (<[i := tree']> trees))
      (trees_ forest);
  Ok (mk (num_trees_ forest) trees).

(** The predictions of the trees, in the order of [trees_]. *)
Definition tree_votes (trees : list Node) (feature : list double)
  : result (list Z) :=
  for_each trees
    (fun tree ps => p ← DecisionTree.predict tree feature; Ok (ps ++ [p])) [].

(** [vote_count[prediction]++] for every prediction. *)
Definition tally (predictions : list Z) : list (Z * Z) :=
  fold_left (fun vote_count p => map_incr p vote_count) predictions [].

Definition predict (forest : t) (feature : list double) : result Z :=
  vote_count ←
    for_each (trees_ forest)
      (fun tree vote_count =>
         prediction ← DecisionTree.predict tree feature;
         Ok (map_incr prediction vote_count))
      [];
  Ok (majority_scan vote_count).

(** The counting loop of [evaluate]. *)
Definition count_correct (predict : list double -> result Z)
    (test_data : list (list double)) : result Z :=
  for_each test_data
    (fun data_point correct_predictions =>
       '(features, l) ← DecisionTree.split_row data_point;
       let true_label := to_int l in
       predicted ← predict features;
       Ok (if (predicted =? true_label)%Z
           then (correct_predictions + 1)%Z
           else correct_predictions))
    0%Z.

Definition evaluate (forest : t) (test_data : list (list double))
  : result double :=
  correct_predictions ← count_correct (predict forest) test_data;
  Ok (ddiv (of_int correct_predictions) (of_size (length test_data))).

(** ** AccuracyMetrics *)
Record AccuracyMetrics := mkMetrics {
  true_positives : Z;
  true_negatives : Z;
  false_positives : Z;
  false_negatives : Z;
  accuracy : double;
}.

Definition calculate_accuracy (m : AccuracyMetrics) : AccuracyMetrics :=
  let total := (true_positives m + true_negatives m
                + false_positives m + false_negatives m)%Z in
  mkMetrics (true_positives m) (true_negatives m)
            (false_positives m) (false_negatives m)
            (if (total =? 0)%Z then of_int 0
             else ddiv (dmul (of_int 100)
                             (of_int (true_positives m + true_negatives m)))
                       (of_int total)).

(** [features = sample], [features.back()], [features.pop_back()]:
    [back()] reads outside an empty sample. *)
Definition pop_label (sample : list double) : result (list double * double) :=
  match last sample with
  | Some l => Ok (removelast sample, l)
  | None => Fault OutOfRange
  end.

Definition evaluate_accuracy (forest : t) (test_data : list (list double))
  : result AccuracyMetrics :=
  metrics ←
    for_each test_data
      (fun sample m =>
         '(features, l) ← pop_label sample;
         let true_label := to_int l in
         predicted_label ← predict forest features;
         Ok (if (predicted_label =? true_label)%Z then
               if (predicted_label =? 1)%Z
               then mkMetrics (true_positives m + 1) (true_negatives m)
                      (false_positives m) (false_negatives m) (accuracy m)
               else mkMetrics (true_positives m) (true_negatives m + 1)
                      (false_positives m) (false_negatives m) (accuracy m)
             else
               if (predicted_label =? 1)%Z
               then mkMetrics (true_positives m) (true_negatives m)
                      (false_positives m + 1) (false_negatives m) (accuracy m)
               else mkMetrics (true_positives m) (true_negatives m)
                      (false_positives m) (false_negatives m + 1) (accuracy m)))
      (mkMetrics 0 0 0 0 (of_int 0));
  Ok (calculate_accuracy metrics).

(** ** kFoldCrossValidation *)

(** [start] and [end] of fold [i]. *)
Definition fold_bounds (n k i : Z) : Z * Z :=
  let foldSize := (n ÷ k)%Z in
  let start := (i * foldSize)%Z in
  let end_ := ((i + 1) * foldSize)%Z in
  (start, if (i =? k - 1)%Z then n else end_).

(** The loop over [j] that fills [trainSet] and [testSet]. *)
Definition fold_sets {A} (data : list A) (indices : list nat)
    (n start end_ : Z) : result (list A * list A) :=
  for_range 0 (Z.to_nat n)
    (fun j '(trainSet, testSet) =>
       idx ← vec_at indices j;
       row ← vec_at data idx;
       if (start <=? Z.of_nat j)%Z && (Z.of_nat j <? end_)%Z
       then Ok (trainSet, testSet ++ [row])
       else Ok (trainSet ++ [row], testSet))
    ([], []).

(** The score of fold [i]: a new forest trained on [trainSet] and
    evaluated on [testSet]. *)
Definition fold_score (num_trees : Z) (data : list (list double))
    (indices : list nat) (draws : nat -> Draws) (k : Z) (i : nat)
  : result double :=
  let n := Z.of_nat (length data) in
  let '(start, end_) := fold_bounds n k (Z.of_nat i) in
  '(trainSet, testSet) ← fold_sets data indices n start end_;
  model ← create num_trees;
  model' ← train model trainSet (draws i);
  evaluate model' testSet.

(** [accumulate(scores.begin(), scores.end(), 0.0) / scores.size()]. *)
Definition average (scores : list double) : double :=
  ddiv (fold_left dadd scores (of_int 0)) (of_size (length scores)).

(** [indices] is the index vector after the shuffle, [draws i] the random
    choices of the training of fold [i]. *)
Definition kFoldCrossValidation (forest : t) (data : list (list double))
    (k : Z) (indices : list nat) (draws : nat -> Draws) : result double :=
  if (k =? 0)%Z then Fault DivideByZero
  else
    scores ←
      for_range 0 (Z.to_nat k)
        (fun i scores =>
           score ← fold_score (num_trees_ forest) data indices draws k i;
           Ok (scores ++ [score]))
        [];
    Ok (average scores).

End RandomForest.
End RandomForest.

(** * K-foldCrossValidation.h *)
Module KFoldCrossValidation.
Section KFoldCrossValidation.
Context `{!DoubleOps, !Platform}.

(** The body of [perform] is that of [RandomForest::kFoldCrossValidation]
    with [num_trees] passed in place of the member [num_trees_]. *)
Definition perform (data : list (list double)) (k num_trees : Z)
    (indices : list nat) (draws : nat -> RandomForest.Draws) : result double :=
  if (k =? 0)%Z then Fault DivideByZero
  else
    scores ←
      for_range 0 (Z.to_nat k)
        (fun i scores =>
           score ← RandomForest.fold_score num_trees data indices draws k i;
           Ok (scores ++ [score]))
        [];
    Ok (RandomForest.average scores).

End KFoldCrossValidation.
End KFoldCrossValidation.

(** * RandomForest.h, the alternate version with the vote vector *)
Module RandomForestAlt.
Section RandomForestAlt.
Context `{!DoubleOps, !Platform}.

Record t := mk {
  num_trees_ : Z;
  trees_ : list Node;
}.

Definition create (num_trees : Z) : result t :=
  if (num_trees <? 0)%Z then Fault LengthError
  else Ok (mk num_trees (replicate (Z.to_nat num_trees) new_Node)).

(** [votes[prediction]++]. *)
Definition vote (votes : list Z) (prediction : Z) : result (list Z) :=
  v ← vec_at_int votes prediction;
  Ok (<[Z.to_nat prediction := (v + 1)%Z]> votes).

(** [std::max_element]: the first position holding the greatest value;
    [largest] and [i] are positions, [rest] is what is left to visit. *)
Fixpoint max_element_from (rest : list Z) (largest : nat) (largest_value : Z)
    (i : nat) : nat :=
  match rest with
  | [] => largest
  | x :: rest' =>
      if (largest_value <? x)%Z
      then max_element_from rest' i x (S i)
      else max_element_from rest' largest largest_value (S i)
  end.

(** [distance(v.begin(), max_element(v.begin(), v.end()))]; on an empty
    vector [max_element] returns [v.end()], at distance 0. *)
Definition max_element (v : list Z) : nat :=
  match v with
  | [] => 0
  | x :: rest => max_element_from rest 0 x 1
  end.

(** [vector<int> votes(num_trees_, 0)]. *)
Definition new_votes (num_trees : Z) : result (list Z) :=
  if (num_trees <? 0)%Z then Fault LengthError
  else Ok (replicate (Z.to_nat num_trees) 0%Z).

(** The tally of [predict] on given predictions. *)
Definition tally (num_trees : Z) (predictions : list Z) : result (list Z) :=
  votes ← new_votes num_trees;
  for_each predictions (fun p votes => vote votes p) votes.

(** [rand_value i j] is what [rand()] returns for tree [i], sample [j]. *)
Definition train (forest : t) (data_vec : list (list double))
    (rand_value : nat -> nat -> Z) : result t :=
  let num_samples := Z.of_nat (length data_vec) in
  trees ←
    for_range 0 (length (trees_ forest))
      (fun i trees =>
         sample_data_vec ←
           for_range 0 (Z.to_nat num_samples)
             (fun j sample =>
                row ← vec_at_int data_vec (Z.rem (rand_value i j) num_samples);
                Ok (sample ++ [row]))
             [];
         tree ← vec_at trees i;
         tree' ← DecisionTree.train tree sample_data_vec [];
         Ok (<[i := tree']> trees))
      (trees_ forest);
  Ok (mk (num_trees_ forest) trees).

Definition predict (forest : t) (feature : list double) : result Z :=
  votes ← new_votes (num_trees_ forest);
  votes' ←
    for_each (trees_ forest)
      (fun tree votes =>
         prediction ← DecisionTree.predict tree feature;
         vote votes prediction)
      votes;
  Ok (Z.of_nat (max_element votes')).

Definition evaluate (forest : t) (test_data : list (list double))
  : result double :=
  correct_predictions ←
    RandomForest.count_correct (predict forest) test_data;
  Ok (ddiv (of_int correct_predictions) (of_size (length test_data))).

End RandomForestAlt.
End RandomForestAlt.

(** * A carrier for concrete runs *)

(** Dyadic and other rational values computed exactly; it serves to run
    the definitions on small inputs whose values a [double] holds exactly. *)
Definition exact_ops : DoubleOps := {|
  double := Q;
  dlt a b := negb (Qle_bool b a);
  dneq a b := negb (Qeq_bool a b);
  dadd a b := Qred (a + b);
  dsub a b := Qred (a - b);
  dmul a b := Qred (a * b);
  ddiv a b := Qred (a / b);
  of_int z := inject_Z z;
  of_size n := inject_Z (Z.of_nat n);
  to_int q := (Qnum q ÷ Zpos (Qden q))%Z;
  dmax := inject_Z ((2 ^ 53 - 1) * 2 ^ 971);
|}.

Definition exact_platform : @Platform exact_ops := {|
  new_Node := @mkNode exact_ops false 0%Z 0%Z 0%Q 0%Q None None;
  indeterminate := 0%Q : @double exact_ops;
  iteration_order := fun l => l;
  iteration_order_perm := fun l => Permutation_refl l;
|}.

(** The inputs of the concrete runs. *)
Section ConcreteData.
#[local] Existing Instance exact_ops.
#[local] Existing Instance exact_platform.
Local Open Scope Q_scope.

(** Five rows of one feature, split at 4. *)
Definition five_rows : list (list double) := [[5]; [7]; [3]; [9]; [1]].

(** Two rows, neither below the threshold 1. *)
Definition two_rows : list (list double) := [[5]; [7]].

(** Two rows that hold a label and no feature. *)
Definition label_only_rows : list (list double) := [[0]; [1]].

(** Ten rows of one feature, all of label 1. *)
Definition ten_rows : list (list double) :=
  [[1; 1]; [2; 1]; [3; 1]; [4; 1]; [5; 1];
   [6; 1]; [7; 1]; [8; 1]; [9; 1]; [10; 1]].

(** An outcome of the shuffle of the indices 0 .. 9. *)
Definition ten_shuffled : list nat := [3; 1; 4; 0; 9; 2; 6; 5; 8; 7]%nat.

(** Random choices for the training on the eight rows of a training set:
    a shuffle of 0 .. 7 and draws in 0 .. 5. *)
Definition eight_row_draws (i : nat) : RandomForest.Draws :=
  RandomForest.mkDraws [7; 2; 5; 0; 3; 6; 1; 4]%nat
    (fun t j => ((j * 5 + t) mod 6)%nat).

(** Forests whose trees are single leaves with the given labels. *)
Definition leaf_forest (labels : list Z) : RandomForest.t :=
  RandomForest.mk (Z.of_nat (length labels))
    (DecisionTree.make_leaf new_Node <$> labels).

Definition leaf_forest_alt (labels : list Z) : RandomForestAlt.t :=
  RandomForestAlt.mk (Z.of_nat (length labels))
    (DecisionTree.make_leaf new_Node <$> labels).

(** Labels with a tie between 1 and 2. *)
Definition tied_labels : list Z := [2; 1; 1; 2; 0]%Z.

(** Four rows of one feature, in ascending order, two labels. *)
Definition sorted_rows : list (list double) :=
  [[1; 0]; [2; 0]; [3; 1]; [4; 1]].

(** Five rows of one feature and a label. *)
Definition five_labelled : list (list double) :=
  [[1; 0]; [2; 0]; [3; 1]; [4; 1]; [5; 1]].

(** Two rows of one feature, both of label 1. *)
Definition two_labelled : list (list double) := [[5; 1]; [6; 1]].

(** Two rows with the same feature value and different labels. *)
Definition constant_rows : list (list double) := [[3]; [3]].

(** Random choices for a training on two rows. *)
Definition two_row_draws : RandomForest.Draws :=
  RandomForest.mkDraws [1; 0]%nat (fun _ _ => 0%nat).



Definition mixed_features : list (list double) := [[9]; [2]; [1]; [7]].

(** A dataset whose second row is empty. *)
Definition with_empty_row : list (list double) := [[1; 0]; []].


End ConcreteData.

(** * Vocabulary of the properties *)

(** The number of votes a label receives among the predictions. *)
Definition votes_for (l : Z) (predictions : list Z) : Z :=
  Z.of_nat (length (filter (fun p => p = l) predictions)).

(** [m.count(k) ? m.at(k) : 0] on a vote map. *)
Fixpoint map_count (k : Z) (m : list (Z * Z)) : Z :=
  match m with
  | [] => 0
  | (k', c) :: m' => if (k =? k')%Z then c else map_count k m'
  end.

(** Position [j] of the shuffled index vector belongs to fold [i]. *)
Definition in_fold (n k i : Z) (j : nat) : Prop :=
  (fst (RandomForest.fold_bounds n k i) <= Z.of_nat j
   < snd (RandomForest.fold_bounds n k i))%Z.

#[global] Instance in_fold_dec n k i j : Decision (in_fold n k i j).
Proof. unfold in_fold. apply _. Defined.



(** The rows [data[indices[j]]] for the positions [j] listed. *)
Definition rows_at {A} (data : list A) (indices : list nat) (js : list nat)
  : list A :=
  omap (fun j => indices !! j ≫= (data !!.)) js.

Section Vocabulary.
Context `{!DoubleOps}.
Implicit Types (features fs : list (list double)) (sigma : list nat).

(** The row has column [feature_index] and its value is below, or is not
    below, the threshold. *)
Definition below (feature_index : Z) (threshold : double)
    (row : list double) : Prop :=
  exists v, vec_at_int row feature_index = Ok v /\ dlt v threshold = true.

Definition not_below (feature_index : Z) (threshold : double)
    (row : list double) : Prop :=
  exists v, vec_at_int row feature_index = Ok v /\ dlt v threshold = false.

(** The run came to an end within the fuel it was given (with a value or
    with a fault of the code). *)
Definition terminates {A} (r : result A) : Prop := r <> Fault OutOfFuel.

(** Row [k] as the tree builder reads it: [features[k]] with [labels[k]]. *)
Definition row_with_label features (labels : list Z) (k : nat)
  : option (list double * Z) :=
  r ← features !! k; l ← labels !! k; Some (r, l).

(** What holds after the loop of [partition_data] has visited the rows
    [start .. j-1]: [sigma] records where each row came from. *)
Record partition_inv features (start : nat) (fi : Z) (th : double)
    (j : nat) (st : nat * list (list double)) (sigma : list nat) : Prop := {
  inv_mid : start <= fst st <= j;
  inv_bound : start < j -> j <= length features;
  inv_perm : sigma ≡ₚ seq 0 (length features);
  inv_same : snd st ≡ₚ features;
  inv_rows : forall k, snd st !! k = sigma !! k ≫= (features !!.);
  inv_fixed : forall k, k < start \/ j <= k -> k < length features ->
                sigma !! k = Some k;
  inv_below : forall k row, start <= k < fst st -> snd st !! k = Some row ->
                below fi th row;
  inv_not_below : forall k row, fst st <= k < j -> snd st !! k = Some row ->
                not_below fi th row;
}.

End Vocabulary.

(** ** Vocabulary of the further properties *)

(** The labels [labels[start .. end-1]]. *)
Definition label_range (labels : list Z) (start end_ : nat) : list Z :=
  take (end_ - start) (drop start labels).

(** A run that ends with a value or by a read outside a vector. *)
Definition only_out_of_range {A} (r : result A) : Prop :=
  forall f, r = Fault f -> f = OutOfRange.

Section FurtherVocabulary.
Context `{!DoubleOps}.

(** [features[i][feature_index]]. *)
Definition column (features : list (list double)) (feature_index : Z)
    (i : nat) : result double :=
  row ← vec_at features i; vec_at_int row feature_index.

(** The impurity [find_best_split] computes for the split between the
    rows [i] and [i + 1] of the range: the rows up to [i] are counted on
    the left, and taken off the counts of the whole range on the right. *)
Definition split_gini (labels : list Z) (start end_ i : nat) : double :=
  let moved := label_range labels start (S i) in
  DecisionTree.calculate_gini_index
    (RandomForest.tally moved)
    (fold_left (fun counts l => map_decr l counts) moved
       (RandomForest.tally (label_range labels start end_)))
    (Z.of_nat (S i - start)) (Z.of_nat (end_ - S i)).

(** What the sweep holds before row [j]. *)
Record sweep_inv (features : list (list double)) (labels : list Z) (fi : Z)
    (start end_ j : nat) (s : DecisionTree.Sweep) : Prop := {
  sweep_left :
    DecisionTree.left_counts s
    = RandomForest.tally (label_range labels start j);
  sweep_right :
    DecisionTree.right_counts s
    = fold_left (fun counts l => map_decr l counts)
        (label_range labels start j)
        (RandomForest.tally (label_range labels start end_));
  sweep_left_size : DecisionTree.left_size s = Z.of_nat (j - start);
  sweep_right_size : DecisionTree.right_size s = Z.of_nat (end_ - j);
  sweep_best :
    (DecisionTree.best_gini s = dmax /\
     DecisionTree.best_threshold s = of_int 0 /\
     forall i a b, start <= i < j ->
       column features fi i = Ok a -> column features fi (S i) = Ok b ->
       dneq a b = true ->
       dlt (split_gini labels start end_ i) dmax = false) \/
    (exists i a b, start <= i < j /\
       column features fi i = Ok a /\ column features fi (S i) = Ok b /\
       dneq a b = true /\
       DecisionTree.best_threshold s = ddiv (dadd a b) (of_int 2) /\
       DecisionTree.best_gini s = split_gini labels start end_ i /\
       forall i' a' b', i < i' < j ->
         column features fi i' = Ok a' ->
         column features fi (S i') = Ok b' ->
         dneq a' b' = true ->
         dlt (split_gini labels start end_ i') (DecisionTree.best_gini s)
         = false);
}.

(** The row has the column and its value is below the threshold. *)
Definition is_below (feature_index : Z) (threshold : double)
    (row : list double) : bool :=
  match vec_at_int row feature_index with
  | Ok v => dlt v threshold
  | Fault _ => false
  end.

(** [predict] is right on the row: the row splits into features and a
    label, and the prediction on the features is the label. *)
Definition is_correct (predict : list double -> result Z)
    (row : list double) : bool :=
  match DecisionTree.split_row row with
  | Ok (features, l) =>
      match predict features with
      | Ok p => (p =? to_int l)%Z
      | Fault _ => false
      end
  | Fault _ => false
  end.

(** [predict] says 1 on the row. *)
Definition says_one (predict : list double -> result Z)
    (row : list double) : bool :=
  match DecisionTree.split_row row with
  | Ok (features, l) =>
      match predict features with
      | Ok p => (p =? 1)%Z
      | Fault _ => false
      end
  | Fault _ => false
  end.

End FurtherVocabulary.


(** The number of elements on which the test says true. *)
Definition count_rows {A} (f : A -> bool) (l : list A) : Z :=
  Z.of_nat (length (filter (fun x => f x = true) l)).


(** * Properties *)

(** ** Loops *)

Lemma bind_Ok {A B} (m : result A) (k : A -> result B) (b : B) :
  m ≫= k = Ok b -> exists a, m = Ok a /\ k a = Ok b.
Proof. destruct m as [a|f]; simpl; [eauto | discriminate]. Qed.

Lemma vec_at_Ok {A} (v : list A) i a : vec_at v i = Ok a <-> v !! i = Some a.
Proof. unfold vec_at. destruct (v !! i); split; congruence. Qed.

Lemma vec_at_lt {A} (v : list A) i : i < length v -> exists a, vec_at v i = Ok a.
Proof.
  intros Hi. destruct (lookup_lt_is_Some_2 v i Hi) as [a Ha].
  exists a. by apply vec_at_Ok.
Qed.

(** An invariant carried by the iterations of a counted loop. *)
Lemma for_range_inv {St} (P : nat -> St -> Prop) body i n (s r : St) :
  P i s ->
  (forall j t t', i <= j < i + n -> P j t -> body j t = Ok t' -> P (S j) t') ->
  for_range i n body s = Ok r ->
  P (i + n) r.
Proof.
  revert i s. induction n as [|n IH]; intros i s Hs Hstep Hrun; simpl in Hrun.
  - injection Hrun as <-. by rewrite Nat.add_0_r.
  - apply bind_Ok in Hrun as (s' & Hbody & Hrest).
    replace (i + S n) with (S i + n) by lia.
    apply (IH (S i) s'); [ | | done].
    + apply (Hstep i s s'); [lia | done | done].
    + intros j t t' Hj. apply Hstep. lia.
Qed.

(** A loop whose body succeeds under the invariant runs to its end. *)
Lemma for_range_runs {St} (P : nat -> St -> Prop) body i n (s : St) :
  P i s ->
  (forall j t, i <= j < i + n -> P j t ->
     exists t', body j t = Ok t' /\ P (S j) t') ->
  exists r, for_range i n body s = Ok r /\ P (i + n) r.
Proof.
  revert i s. induction n as [|n IH]; intros i s Hs Hstep; simpl.
  - exists s. by rewrite Nat.add_0_r.
  - destruct (Hstep i s) as (s' & Hbody & Hs'); [lia | done | ].
    rewrite Hbody. simpl.
    replace (i + S n) with (S i + n) by lia.
    apply IH; [done | ]. intros j t Hj. apply Hstep. lia.
Qed.

(** ** partition_data *)

Section PartitionFacts.
Context `{!DoubleOps}.
Implicit Types (features fs : list (list double)) (sigma : list nat).

Lemma vec_swap_lookup {A} (v v' : list A) a b k :
  vec_swap v a b = Ok v' ->
  v' !! k = if decide (k = a) then v !! b
            else if decide (k = b) then v !! a else v !! k.
Proof.
  unfold vec_swap. intros Hs.
  apply bind_Ok in Hs as (x & Hx & Hs). apply bind_Ok in Hs as (y & Hy & Hs).
  injection Hs as <-. apply vec_at_Ok in Hx, Hy.
  pose proof (lookup_lt_Some _ _ _ Hx). pose proof (lookup_lt_Some _ _ _ Hy).
  destruct (decide (k = a)) as [->|Hka].
  - rewrite list_lookup_insert_eq; [done | by rewrite length_insert].
  - rewrite list_lookup_insert_ne by done.
    destruct (decide (k = b)) as [->|Hkb].
    + by rewrite list_lookup_insert_eq.
    + by rewrite list_lookup_insert_ne.
Qed.

Lemma vec_swap_perm {A} (v v' : list A) a b :
  vec_swap v a b = Ok v' -> v' ≡ₚ v.
Proof.
  unfold vec_swap. intros Hs.
  apply bind_Ok in Hs as (x & Hx & Hs). apply bind_Ok in Hs as (y & Hy & Hs).
  injection Hs as <-. apply vec_at_Ok in Hx, Hy.
  by apply Permutation_insert_swap.
Qed.

Lemma vec_swap_runs {A} (v : list A) a b :
  a < length v -> b < length v -> exists v', vec_swap v a b = Ok v'.
Proof.
  intros Ha Hb. unfold vec_swap.
  destruct (vec_at_lt v a Ha) as [x ->], (vec_at_lt v b Hb) as [y ->].
  simpl. eauto.
Qed.

Lemma partition_inv_init features start fi th :
  partition_inv features start fi th start (start, features)
    (seq 0 (length features)).
Proof.
  split; simpl; try done; try lia.
  intros k. destruct (decide (k < length features)) as [Hk|Hk].
  - by rewrite lookup_seq_lt.
  - rewrite lookup_seq_ge by lia. simpl. apply lookup_ge_None. lia.
  - intros k _ Hk. by rewrite lookup_seq_lt.
Qed.

Lemma partition_inv_length features start fi th j st sigma :
  partition_inv features start fi th j st sigma ->
  length (snd st) = length features.
Proof. intros Hinv. by rewrite (inv_same _ _ _ _ _ _ _ Hinv). Qed.

Lemma partition_step_inv features start fi th j st st' sigma :
  partition_inv features start fi th j st sigma ->
  DecisionTree.partition_step fi th j st = Ok st' ->
  exists sigma', partition_inv features start fi th (S j) st' sigma'.
Proof.
  intros Hinv Hstep.
  pose proof (partition_inv_length _ _ _ _ _ _ _ Hinv) as Hlen.
  destruct Hinv as [Hmid Hbound Hperm Hsame Hrows Hfix Hlo Hhi].
  destruct st as [mid fs]. simpl in *.
  unfold DecisionTree.partition_step in Hstep.
  apply bind_Ok in Hstep as (row & Hrow & Hstep).
  apply bind_Ok in Hstep as (v & Hv & Hstep).
  apply vec_at_Ok in Hrow.
  pose proof (lookup_lt_Some _ _ _ Hrow) as Hj.
  destruct (dlt v th) eqn:Hcmp.
  - apply bind_Ok in Hstep as (fs' & Hswap & Hstep). injection Hstep as <-.
    assert (Hsl : length sigma = length features)
      by (by rewrite Hperm, length_seq).
    destruct (vec_swap_runs sigma mid j) as [sigma' Hsw]; [lia | lia | ].
    exists sigma'. split; simpl.
    + lia.
    + lia.
    + by rewrite (vec_swap_perm _ _ _ _ Hsw).
    + by rewrite (vec_swap_perm _ _ _ _ Hswap).
    + intros k. rewrite (vec_swap_lookup _ _ _ _ k Hswap),
        (vec_swap_lookup _ _ _ _ k Hsw).
      repeat case_decide; apply Hrows.
    + intros k Hk Hkl. rewrite (vec_swap_lookup _ _ _ _ k Hsw).
      repeat case_decide; try lia. apply Hfix; [lia | done].
    + intros k r Hk. rewrite (vec_swap_lookup _ _ _ _ k Hswap).
      repeat case_decide; try lia.
      * rewrite Hrow. intros [= <-]. by exists v.
      * apply Hlo. lia.
    + intros k r Hk. rewrite (vec_swap_lookup _ _ _ _ k Hswap).
      repeat case_decide; try lia.
      * apply Hhi. lia.
      * apply Hhi. lia.
  - injection Hstep as <-. exists sigma. split; simpl; try done.
    + lia.
    + lia.
    + intros k Hk. apply Hfix. lia.
    + intros k r Hk Hr. destruct (decide (k = j)) as [->|Hne].
      * rewrite Hrow in Hr. injection Hr as <-. by exists v.
      * apply (Hhi k); [lia | done].
Qed.

(** The loop of [partition_data] leaves the rows below the threshold in
    [start, p) and the others in [p, end), [p] being its final pivot. *)
Lemma partition_loop_inv features start end_ fi th p fs :
  DecisionTree.partition_loop features start end_ fi th = Ok (p, fs) ->
  exists sigma,
    partition_inv features start fi th (start + (end_ - start)) (p, fs) sigma.
Proof.
  unfold DecisionTree.partition_loop. intros Hrun.
  apply (for_range_inv
           (fun j st => exists sigma, partition_inv features start fi th j st sigma)
           _ _ _ _ _) in Hrun; [done | | ].
  - eexists. apply partition_inv_init.
  - intros j t t' _ [sigma Hinv] Hstep. by eapply partition_step_inv.
Qed.

Lemma partition_data_unfold features start end_ fi th mid fs :
  DecisionTree.partition_data features start end_ fi th = Ok (mid, fs) ->
  exists p,
    DecisionTree.partition_loop features start end_ fi th = Ok (p, fs) /\
    mid = if (p =? start) || (p =? end_)
          then start + (end_ - start) / 2 else p.
Proof.
  unfold DecisionTree.partition_data. intros Hrun.
  apply bind_Ok in Hrun as ([p fs'] & Hloop & Hrun).
  injection Hrun as <- <-. by exists p.
Qed.

(** [partition_data] runs to its end when the range lies in the matrix and
    every row of the range has the column. *)
Lemma partition_data_runs features start end_ fi th :
  end_ <= length features ->
  (forall k row, start <= k < end_ -> features !! k = Some row ->
     exists v, vec_at_int row fi = Ok v) ->
  exists mid fs', DecisionTree.partition_data features start end_ fi th
                  = Ok (mid, fs').
Proof.
  intros Hend Hcol.
  destruct (for_range_runs
    (fun j st => exists sigma, partition_inv features start fi th j st sigma)
    (DecisionTree.partition_step fi th) start (end_ - start) (start, features))
    as ([p fs'] & Hrun & _).
  - eexists. apply partition_inv_init.
  - intros j [mid fs] Hj [sigma Hinv].
    assert (exists t', DecisionTree.partition_step fi th j (mid, fs) = Ok t')
      as [t' Ht'].
    { pose proof (partition_inv_length _ _ _ _ _ _ _ Hinv) as Hlen.
      destruct Hinv as [Hmid _ _ _ Hrows Hfix _ _]. simpl in *.
      destruct (lookup_lt_is_Some_2 features j) as [row Hrow]; [lia|].
      assert (Hfj : fs !! j = Some row).
      { rewrite Hrows, Hfix by lia. done. }
      destruct (Hcol j row) as [v Hv]; [lia | done | ].
      unfold DecisionTree.partition_step.
      apply vec_at_Ok in Hfj. rewrite Hfj. simpl. rewrite Hv. simpl.
      destruct (dlt v th); [ | eauto].
      destruct (vec_swap_runs fs mid j) as [fs1 ->]; [lia | lia | ].
      simpl. eauto. }
    exists t'. split; [done | ]. by eapply partition_step_inv.
  - unfold DecisionTree.partition_data, DecisionTree.partition_loop.
    rewrite Hrun. simpl. eauto.
Qed.

(** C2, as amended: the rows below the threshold end up in the prefix
    [start, p) of the range and the rows not below it in [p, end), where
    [p] is the pivot reached by the swapping loop.  The split point
    returned is [p] when both sides are non-empty; when no row, or every
    row, of the range is below the threshold, it is the middle
    [start + (end - start) / 2] of the range instead. *)
Theorem partition_data_prefix features start end_ fi th mid fs' :
  start <= end_ ->
  DecisionTree.partition_data features start end_ fi th = Ok (mid, fs') ->
  exists p,
    start <= p <= end_ /\
    (forall k, start <= k < p ->
       exists row, fs' !! k = Some row /\ below fi th row) /\
    (forall k, p <= k < end_ ->
       exists row, fs' !! k = Some row /\ not_below fi th row) /\
    mid = (if (p =? start) || (p =? end_)
           then start + (end_ - start) / 2 else p) /\
    (start < p < end_ -> mid = p).
Proof.
  intros Hle Hrun.
  apply partition_data_unfold in Hrun as (p & Hloop & ->).
  apply partition_loop_inv in Hloop as [sigma Hinv].
  pose proof (partition_inv_length _ _ _ _ _ _ _ Hinv) as Hlen.
  destruct Hinv as [Hmid Hbound _ _ _ _ Hlo Hhi]. simpl in *.
  replace (start + (end_ - start)) with end_ in * by lia.
  exists p. repeat split; try lia.
  - intros k Hk.
    destruct (lookup_lt_is_Some_2 fs' k) as [row Hrow]; [lia|].
    exists row. split; [done | by apply (Hlo k)].
  - intros k Hk.
    destruct (lookup_lt_is_Some_2 fs' k) as [row Hrow]; [lia|].
    exists row. split; [done | by apply (Hhi k)].
  - intros Hp.
    destruct (Nat.eqb_spec p start), (Nat.eqb_spec p end_); simpl; lia.
Qed.

(** C3: [partition_data] reorders the feature matrix only.  The matrix it
    returns has the rows of the given one in the order of an index
    permutation [sigma] that moves no index outside [start, end); the
    labels are not an argument of the step, so row [sigma k] of the
    features now stands at index [k], where it is read with [labels[k]]. *)
Theorem partition_data_frame features (labels : list Z) start end_ fi th
    mid fs' :
  DecisionTree.partition_data features start end_ fi th = Ok (mid, fs') ->
  length fs' = length features /\
  fs' ≡ₚ features /\
  (forall k, k < start \/ end_ <= k -> fs' !! k = features !! k) /\
  exists sigma,
    sigma ≡ₚ seq 0 (length features) /\
    (forall k, k < start \/ end_ <= k -> k < length features ->
       sigma !! k = Some k) /\
    (forall k, fs' !! k = sigma !! k ≫= (features !!.)) /\
    (forall k, row_with_label fs' labels k =
       i ← sigma !! k; r ← features !! i; l ← labels !! k; Some (r, l)).
Proof.
  intros Hrun.
  apply partition_data_unfold in Hrun as (p & Hloop & _).
  apply partition_loop_inv in Hloop as [sigma Hinv].
  pose proof (partition_inv_length _ _ _ _ _ _ _ Hinv) as Hlen.
  destruct Hinv as [_ _ Hperm Hsame Hrows Hfix _ _]. simpl in *.
  assert (Hout : forall k, k < start \/ end_ <= k ->
            fs' !! k = features !! k).
  { intros k Hk. destruct (decide (k < length features)) as [Hlt|Hge].
    - rewrite Hrows, Hfix by lia. done.
    - rewrite !lookup_ge_None_2 by lia. done. }
  split; [done | ]. split; [done | ]. split; [done | ].
  exists sigma. repeat split; try done.
  - intros k Hk. apply Hfix. lia.
  - intros k. unfold row_with_label. rewrite Hrows.
    destruct (sigma !! k) as [i|]; simpl; [ | done].
    destruct (features !! i); done.
Qed.

(** The split index lies strictly inside a range of two rows or more. *)
Lemma partition_data_progress features start end_ fi th mid fs' :
  start + 2 <= end_ ->
  DecisionTree.partition_data features start end_ fi th = Ok (mid, fs') ->
  start < mid < end_.
Proof.
  intros Hle Hrun.
  apply partition_data_unfold in Hrun as (p & Hloop & ->).
  apply partition_loop_inv in Hloop as [sigma Hinv].
  destruct Hinv as [Hmid _ _ _ _ _ _ _]. simpl in Hmid.
  assert (start < start + (end_ - start) / 2 < end_).
  { pose proof (Nat.div_mod_eq (end_ - start) 2).
    pose proof (Nat.mod_upper_bound (end_ - start) 2). lia. }
  destruct (Nat.eqb_spec p start), (Nat.eqb_spec p end_); cbn [orb]; lia.
Qed.

End PartitionFacts.

(** ** Termination of build_tree *)

Create HintDb fuel discriminated.

Lemma terminates_Ok {A} (a : A) : terminates (Ok a).
Proof. discriminate. Qed.

Lemma terminates_code_fault {A} f : f <> OutOfFuel -> terminates (@Fault A f).
Proof. intros Hf [= ->]. done. Qed.

Lemma terminates_bind_eq {A B} (m : result A) (k : A -> result B) :
  terminates m -> (forall a, m = Ok a -> terminates (k a)) ->
  terminates (m ≫= k).
Proof.
  destruct m as [a|f]; [eauto | ].
  intros Hm _ Heq. apply Hm. cbv in Heq. congruence.
Qed.

Lemma terminates_bind {A B} (m : result A) (k : A -> result B) :
  terminates m -> (forall a, terminates (k a)) -> terminates (m ≫= k).
Proof. intros Hm Hk. apply terminates_bind_eq; eauto. Qed.

Lemma vec_at_terminates {A} (v : list A) i : terminates (vec_at v i).
Proof. unfold vec_at. destruct (v !! i); discriminate. Qed.

Lemma vec_at_int_terminates {A} (v : list A) i : terminates (vec_at_int v i).
Proof.
  unfold vec_at_int. destruct (i <? 0)%Z; [discriminate | ].
  apply vec_at_terminates.
Qed.

Lemma for_range_terminates {St} body i n (s : St) :
  (forall j t, terminates (body j t)) -> terminates (for_range i n body s).
Proof.
  intros Hbody. revert i s. induction n as [|n IH]; intros i s; simpl.
  - apply terminates_Ok.
  - apply terminates_bind; [apply Hbody | intros s'; apply IH].
Qed.

Lemma vec_swap_terminates {A} (v : list A) a b : terminates (vec_swap v a b).
Proof.
  unfold vec_swap.
  repeat (apply terminates_bind; [apply vec_at_terminates | intros ?]).
  apply terminates_Ok.
Qed.

#[local] Hint Resolve terminates_Ok vec_at_terminates vec_at_int_terminates
  vec_swap_terminates : fuel.
#[local] Hint Extern 2 (terminates (_ ≫= _)) =>
  apply terminates_bind; [ | intros ?] : fuel.
#[local] Hint Extern 3 (terminates (if ?b then _ else _)) => destruct b : fuel.
#[local] Hint Extern 3 (terminates (for_range _ _ _ _)) =>
  apply for_range_terminates; intros ? ? : fuel.

Section BuildFacts.
Context `{!DoubleOps, !Platform}.

Lemma same_label_from_terminates labels first i n :
  terminates (DecisionTree.same_label_from labels first i n).
Proof. revert i. induction n; intros i; simpl; auto with fuel. Qed.

Lemma should_be_leaf_terminates labels start end_ :
  terminates (DecisionTree.should_be_leaf labels start end_).
Proof.
  unfold DecisionTree.should_be_leaf.
  apply terminates_bind; [auto with fuel | intros ?].
  apply same_label_from_terminates.
Qed.

Lemma count_labels_terminates labels start end_ :
  terminates (DecisionTree.count_labels labels start end_).
Proof. unfold DecisionTree.count_labels. auto with fuel. Qed.

Lemma determine_label_terminates labels start end_ :
  terminates (DecisionTree.determine_label labels start end_).
Proof.
  unfold DecisionTree.determine_label.
  apply terminates_bind; [apply count_labels_terminates | auto with fuel].
Qed.

Lemma find_best_split_terminates features labels start end_ fi :
  terminates (DecisionTree.find_best_split features labels start end_ fi).
Proof.
  unfold DecisionTree.find_best_split.
  apply terminates_bind; [apply count_labels_terminates | intros rc].
  apply terminates_bind; [ | auto with fuel].
  apply for_range_terminates. intros j s.
  unfold DecisionTree.sweep_step. auto 12 with fuel.
Qed.

Lemma search_split_terminates features labels start end_ sampled b :
  terminates (DecisionTree.search_split features labels start end_ sampled b).
Proof.
  revert b. induction sampled as [|fi rest IH]; intros b; simpl.
  - apply terminates_Ok.
  - apply terminates_bind; [apply find_best_split_terminates | intros r].
    apply IH.
Qed.

Lemma partition_data_terminates features start end_ fi th :
  terminates (DecisionTree.partition_data features start end_ fi th).
Proof.
  unfold DecisionTree.partition_data, DecisionTree.partition_loop.
  apply terminates_bind.
  - apply for_range_terminates. intros j [mid fs].
    unfold DecisionTree.partition_step. auto 8 with fuel.
  - intros [mid fs]. apply terminates_Ok.
Qed.

(** Only a range of two rows or more is found impure. *)
Lemma should_be_leaf_false labels start end_ :
  DecisionTree.should_be_leaf labels start end_ = Ok false ->
  start + 2 <= end_.
Proof.
  unfold DecisionTree.should_be_leaf. intros Hrun.
  apply bind_Ok in Hrun as (first & _ & Hrun).
  destruct (end_ - S start) eqn:Hn; [discriminate | lia].
Qed.

Lemma build_tree_enough_fuel labels sampled fuel :
  forall node features start end_,
    end_ - start < fuel ->
    terminates
      (DecisionTree.build_tree fuel node features labels start end_ sampled).
Proof.
  induction fuel as [|fuel IH]; intros node features start end_ Hfuel;
    [lia | ].
  simpl. destruct (end_ <=? start); [apply terminates_Ok | ].
  apply terminates_bind_eq; [apply should_be_leaf_terminates | ].
  intros [|] Hleaf.
  - apply terminates_bind; [apply determine_label_terminates | ].
    intros l. apply terminates_Ok.
  - apply should_be_leaf_false in Hleaf.
    apply terminates_bind; [apply search_split_terminates | intros b].
    apply terminates_bind_eq; [apply partition_data_terminates | ].
    intros [mid fs1] Hpart.
    apply partition_data_progress in Hpart; [ | done].
    apply terminates_bind; [apply IH; lia | intros [l fs2]].
    apply terminates_bind; [apply IH; lia | intros [r fs3]].
    apply terminates_Ok.
Qed.

(** Fuel beyond the size of the range changes nothing. *)
Lemma build_tree_fuel_irrelevant labels sampled fuel :
  forall fuel' node features start end_,
    end_ - start < fuel -> end_ - start < fuel' ->
    DecisionTree.build_tree fuel node features labels start end_ sampled
    = DecisionTree.build_tree fuel' node features labels start end_ sampled.
Proof.
  induction fuel as [|fuel IH];
    intros [|fuel'] node features start end_ Hf Hf'; try lia.
  simpl. destruct (end_ <=? start); [done | ].
  destruct (DecisionTree.should_be_leaf labels start end_)
    as [[|]|f] eqn:Hleaf; simpl; try done.
  apply should_be_leaf_false in Hleaf.
  destruct (DecisionTree.search_split _ _ _ _ _ _) as [b|f]; simpl; [|done].
  destruct (DecisionTree.partition_data _ _ _ _ _)
    as [[mid fs1]|f] eqn:Hpart; simpl; [|done].
  apply partition_data_progress in Hpart; [ | done].
  rewrite (IH fuel' new_Node fs1 start mid) by lia.
  destruct (DecisionTree.build_tree fuel' _ fs1 _ _ _ _)
    as [[l fs2]|f]; simpl; [|done].
  by rewrite (IH fuel' new_Node fs2 mid end_) by lia.
Qed.

(** C1: on a range of two rows or more the split index that
    [partition_data] returns lies strictly inside the range, so that both
    child ranges are non-empty and shorter; and the recursion of
    [build_tree] comes to an end on every input: fuel beyond the length of
    the range is never used up, and more fuel does not change the result. *)
Theorem build_tree_terminates :
  (forall features start end_ fi th mid fs',
     start + 2 <= end_ ->
     DecisionTree.partition_data features start end_ fi th = Ok (mid, fs') ->
     start < mid < end_) /\
  (forall node features labels start end_ sampled,
     terminates
       (DecisionTree.build_tree (S (end_ - start)) node features labels
          start end_ sampled) /\
     forall fuel, end_ - start < fuel ->
       DecisionTree.build_tree fuel node features labels start end_ sampled
       = DecisionTree.build_tree (S (end_ - start)) node features labels
           start end_ sampled).
Proof.
  split.
  - intros *. apply partition_data_progress.
  - intros *. split.
    + apply build_tree_enough_fuel. lia.
    + intros fuel Hfuel. apply build_tree_fuel_irrelevant; lia.
Qed.

(** ** The purity stopping rule *)

Lemma same_label_from_pure labels l i n :
  (forall k, i <= k < i + n -> labels !! k = Some l) ->
  DecisionTree.same_label_from labels l i n = Ok true.
Proof.
  revert i. induction n as [|n IH]; intros i Hall; simpl; [done | ].
  assert (Hi : vec_at labels i = Ok l) by (apply vec_at_Ok, Hall; lia).
  rewrite Hi. simpl. rewrite Z.eqb_refl. apply IH. intros k Hk. apply Hall. lia.
Qed.

Lemma should_be_leaf_pure labels start end_ l :
  start < end_ ->
  (forall k, start <= k < end_ -> labels !! k = Some l) ->
  DecisionTree.should_be_leaf labels start end_ = Ok true.
Proof.
  intros Hne Hall. unfold DecisionTree.should_be_leaf.
  assert (Hs : vec_at labels start = Ok l) by (apply vec_at_Ok, Hall; lia).
  rewrite Hs. simpl. apply same_label_from_pure. intros k Hk. apply Hall. lia.
Qed.

Lemma count_labels_pure labels start end_ l :
  start < end_ ->
  (forall k, start <= k < end_ -> labels !! k = Some l) ->
  DecisionTree.count_labels labels start end_
  = Ok [(l, Z.of_nat (end_ - start))].
Proof.
  intros Hne Hall. unfold DecisionTree.count_labels.
  destruct (for_range_runs
    (fun j counts =>
       counts = if decide (j = start) then []
                else [(l, Z.of_nat (j - start))])
    (fun i counts => x ← vec_at labels i; Ok (map_incr x counts))
    start (end_ - start) []) as (r & Hrun & Hr).
  - by rewrite decide_True.
  - intros j counts Hj ->.
    assert (Hl : vec_at labels j = Ok l) by (apply vec_at_Ok, Hall; lia).
    rewrite Hl. simpl. eexists. split; [done | ].
    rewrite (decide_False (P := S j = start)) by lia.
    case_decide as Hjs; simpl.
    + subst j. do 2 f_equal. lia.
    + rewrite Z.ltb_irrefl, Z.eqb_refl. do 2 f_equal. lia.
  - rewrite Hrun, Hr. rewrite decide_False by lia.
    do 4 f_equal. lia.
Qed.

Lemma determine_label_pure labels start end_ l :
  start < end_ ->
  (forall k, start <= k < end_ -> labels !! k = Some l) ->
  DecisionTree.determine_label labels start end_ = Ok l.
Proof.
  intros Hne Hall. unfold DecisionTree.determine_label.
  rewrite (count_labels_pure _ _ _ l) by done. simpl.
  unfold majority_scan, majority_step. simpl.
  destruct (0 <? Z.of_nat (end_ - start))%Z eqn:Hpos; [done | ].
  apply Z.ltb_ge in Hpos. lia.
Qed.

(** A range found pure has one label. *)
Lemma same_label_from_true labels first i n :
  DecisionTree.same_label_from labels first i n = Ok true ->
  forall k, i <= k < i + n -> labels !! k = Some first.
Proof.
  revert i. induction n as [|n IH]; intros i Hrun k Hk; [lia | ].
  simpl in Hrun. apply bind_Ok in Hrun as (l & Hl & Hrun).
  apply vec_at_Ok in Hl.
  destruct (Z.eqb_spec l first) as [->|Hne]; [ | discriminate].
  destruct (decide (k = i)) as [->|Hki]; [done | ].
  apply (IH (S i)); [done | lia].
Qed.

(** A range that holds two different labels is not found pure. *)
Lemma should_be_leaf_impure labels start end_ k1 k2 l1 l2 leaf :
  start <= k1 < end_ -> start <= k2 < end_ ->
  labels !! k1 = Some l1 -> labels !! k2 = Some l2 -> l1 <> l2 ->
  DecisionTree.should_be_leaf labels start end_ = Ok leaf ->
  leaf = false.
Proof.
  intros Hk1 Hk2 Hl1 Hl2 Hne Hrun. destruct leaf; [exfalso | done].
  unfold DecisionTree.should_be_leaf in Hrun.
  apply bind_Ok in Hrun as (first & Hfirst & Hrun).
  apply vec_at_Ok in Hfirst.
  assert (Hall : forall k, start <= k < end_ -> labels !! k = Some first).
  { intros k Hk. destruct (decide (k = start)) as [->|Hks]; [done | ].
    apply (same_label_from_true _ _ _ _ Hrun). lia. }
  rewrite (Hall k1 Hk1) in Hl1. rewrite (Hall k2 Hk2) in Hl2. congruence.
Qed.

(** The step of [build_tree] on a range that holds two different labels:
    the node is split, and both children are built by [build_tree]. *)
Lemma build_tree_impure fuel node features labels start end_ sampled
    k1 k2 l1 l2 node' fs :
  start <= k1 < end_ -> start <= k2 < end_ ->
  labels !! k1 = Some l1 -> labels !! k2 = Some l2 -> l1 <> l2 ->
  DecisionTree.build_tree (S fuel) node features labels start end_ sampled
  = Ok (node', fs) ->
  DecisionTree.should_be_leaf labels start end_ = Ok false /\
  exists b mid fs1 l fs2 r,
    DecisionTree.search_split features labels start end_ sampled
      (DecisionTree.mkBest (-1) indeterminate dmax) = Ok b /\
    DecisionTree.partition_data features start end_
      (DecisionTree.best_feature b) (DecisionTree.best_split_threshold b)
    = Ok (mid, fs1) /\
    start < mid < end_ /\
    DecisionTree.build_tree fuel new_Node fs1 labels start mid sampled
    = Ok (l, fs2) /\
    DecisionTree.build_tree fuel new_Node fs2 labels mid end_ sampled
    = Ok (r, fs) /\
    node' = DecisionTree.make_split node b l r.
Proof.
  intros Hk1 Hk2 Hl1 Hl2 Hne Hrun. simpl in Hrun.
  destruct (Nat.leb_spec end_ start) as [Hle|_]; [lia | ].
  apply bind_Ok in Hrun as (leaf & Hleaf & Hrun).
  assert (leaf = false) as ->
    by exact (should_be_leaf_impure _ _ _ _ _ _ _ _ Hk1 Hk2 Hl1 Hl2 Hne Hleaf).
  split; [done | ].
  apply bind_Ok in Hrun as (b & Hb & Hrun).
  apply bind_Ok in Hrun as ([mid fs1] & Hpart & Hrun).
  apply bind_Ok in Hrun as ([l fs2] & Hl & Hrun).
  apply bind_Ok in Hrun as ([r fs3] & Hr & [= <- <-]).
  exists b, mid, fs1, l, fs2, r.
  split; [done | ]. split; [done | ].
  split; [ | done].
  apply (partition_data_progress _ _ _ _ _ _ _
           (should_be_leaf_false _ _ _ Hleaf) Hpart).
Qed.

(** C7: purity is the rule by which [build_tree] stops on a non-empty
    range, and the only one.
    - On a non-empty range whose labels are all equal, [build_tree] turns
      the node into a leaf with that label and stops there: nothing else
      of the node changes, no child is built and the feature matrix is
      left as it is.  This holds with any fuel left and for any non-empty
      pure range, the ranges of one row included.
    - On a range that holds two different labels, whatever its size and
      however deep in the recursion, [should_be_leaf] says no, and a
      [build_tree] that returns has split the node: [partition_data] cut
      the range at a [mid] strictly inside it and both children were
      built by [build_tree] on the two parts.  No depth and no size of
      the range keeps a node from being split.
    - So the recursion reaches ranges of one row: on two rows of
      different labels, a [build_tree] that returns has made both
      children leaves, one for each row, with the label of the row. *)
Theorem purity_stopping_rule :
  (forall fuel node features labels start end_ sampled l,
     start < end_ ->
     (forall k, start <= k < end_ -> labels !! k = Some l) ->
     DecisionTree.build_tree (S fuel) node features labels start end_ sampled
     = Ok (DecisionTree.make_leaf node l, features) /\
     is_leaf (DecisionTree.make_leaf node l) = true /\
     label (DecisionTree.make_leaf node l) = l /\
     left_child (DecisionTree.make_leaf node l) = left_child node /\
     right_child (DecisionTree.make_leaf node l) = right_child node) /\
  (forall fuel node features labels k sampled l,
     labels !! k = Some l ->
     DecisionTree.build_tree (S fuel) node features labels k (S k) sampled
     = Ok (DecisionTree.make_leaf node l, features)) /\
  (forall fuel node features labels start end_ sampled k1 k2 l1 l2 node' fs,
     start <= k1 < end_ -> start <= k2 < end_ ->
     labels !! k1 = Some l1 -> labels !! k2 = Some l2 -> l1 <> l2 ->
     DecisionTree.build_tree (S fuel) node features labels start end_ sampled
     = Ok (node', fs) ->
     DecisionTree.should_be_leaf labels start end_ = Ok false /\
     exists b mid fs1 l fs2 r,
       DecisionTree.search_split features labels start end_ sampled
         (DecisionTree.mkBest (-1) indeterminate dmax) = Ok b /\
       DecisionTree.partition_data features start end_
         (DecisionTree.best_feature b) (DecisionTree.best_split_threshold b)
       = Ok (mid, fs1) /\
       start < mid < end_ /\
       DecisionTree.build_tree fuel new_Node fs1 labels start mid sampled
       = Ok (l, fs2) /\
       DecisionTree.build_tree fuel new_Node fs2 labels mid end_ sampled
       = Ok (r, fs) /\
       node' = DecisionTree.make_split node b l r /\
       left_child node' = Some l /\ right_child node' = Some r) /\
  (forall fuel node features labels start sampled l0 l1 node' fs,
     labels !! start = Some l0 -> labels !! (S start) = Some l1 -> l0 <> l1 ->
     DecisionTree.build_tree (S (S fuel)) node features labels
       start (S (S start)) sampled
     = Ok (node', fs) ->
     exists b,
       node' = DecisionTree.make_split node b
                 (DecisionTree.make_leaf new_Node l0)
                 (DecisionTree.make_leaf new_Node l1)).
Proof.
  assert (Hpure : forall fuel node features labels start end_ sampled l,
     start < end_ ->
     (forall k, start <= k < end_ -> labels !! k = Some l) ->
     DecisionTree.build_tree (S fuel) node features labels start end_ sampled
     = Ok (DecisionTree.make_leaf node l, features)).
  { intros * Hne Hall. simpl.
    destruct (Nat.leb_spec end_ start) as [Hle|_]; [lia | ].
    rewrite (should_be_leaf_pure _ _ _ l) by done. simpl.
    by rewrite (determine_label_pure _ _ _ l). }
  assert (Hone : forall fuel node features labels k sampled l,
     labels !! k = Some l ->
     DecisionTree.build_tree (S fuel) node features labels k (S k) sampled
     = Ok (DecisionTree.make_leaf node l, features)).
  { intros * Hk. apply Hpure; [lia | ].
    intros j Hj. by replace j with k by lia. }
  split; [ | split; [exact Hone | split]].
  - intros * Hne Hall. split; [by apply Hpure | done].
  - intros * Hk1 Hk2 Hl1 Hl2 Hne Hrun.
    destruct (build_tree_impure _ _ _ _ _ _ _ _ _ _ _ _ _
                Hk1 Hk2 Hl1 Hl2 Hne Hrun)
      as (Hleaf & b & mid & fs1 & l & fs2 & r & Hb & Hpart & Hmid & Hl & Hr & ->).
    split; [done | ]. by exists b, mid, fs1, l, fs2, r.
  - intros * Hl0 Hl1 Hne Hrun.
    assert (Hk0 : start <= start < S (S start)) by lia.
    assert (Hk1 : start <= S start < S (S start)) by lia.
    destruct (build_tree_impure _ _ _ _ _ _ _ _ _ _ _ _ _
                Hk0 Hk1 Hl0 Hl1 Hne Hrun)
      as (_ & b & mid & fs1 & l & fs2 & r & _ & _ & Hmid & Hl & Hr & ->).
    assert (mid = S start) as -> by lia.
    rewrite (Hone _ _ _ _ _ _ _ Hl0) in Hl. injection Hl as <- <-.
    rewrite (Hone _ _ _ _ _ _ _ Hl1) in Hr. injection Hr as <- <-.
    by exists b.
Qed.

(** ** An empty candidate set *)

Lemma partition_data_negative_index features start end_ fi th :
  start < end_ -> (fi < 0)%Z ->
  DecisionTree.partition_data features start end_ fi th = Fault OutOfRange.
Proof.
  intros Hne Hfi.
  unfold DecisionTree.partition_data, DecisionTree.partition_loop.
  destruct (end_ - start) as [|n] eqn:Hn; [lia | ]. simpl.
  unfold vec_at. destruct (features !! start) as [row|]; simpl; [ | done].
  unfold vec_at_int. apply Z.ltb_lt in Hfi. by rewrite Hfi.
Qed.

(** C8, what the code does: with no candidate feature the search leaves
    [best_feature] at -1 and [best_threshold] unassigned; on an impure
    range [build_tree] then goes on to [partition_data] with them, whose
    first comparison reads column -1 of a row. *)
Theorem build_tree_without_candidates fuel node features labels start end_ :
  DecisionTree.should_be_leaf labels start end_ = Ok false ->
  DecisionTree.search_split features labels start end_ []
    (DecisionTree.mkBest (-1) indeterminate dmax)
  = Ok (DecisionTree.mkBest (-1) indeterminate dmax) /\
  DecisionTree.partition_data features start end_ (-1) indeterminate
  = Fault OutOfRange /\
  DecisionTree.build_tree (S fuel) node features labels start end_ []
  = Fault OutOfRange.
Proof.
  intros Hleaf. pose proof (should_be_leaf_false _ _ _ Hleaf) as Hsize.
  assert (Hpart : DecisionTree.partition_data features start end_ (-1)
                    indeterminate = Fault OutOfRange)
    by (apply partition_data_negative_index; lia).
  split; [done | ]. split; [done | ].
  simpl. destruct (Nat.leb_spec end_ start) as [Hle|_]; [lia | ].
  rewrite Hleaf. simpl. by rewrite Hpart.
Qed.

End BuildFacts.

(** ** Vote maps *)

Section VoteMap.
Implicit Types (m : list (Z * Z)) (ps : list Z).

Lemma votes_for_nil l : votes_for l [] = 0%Z.
Proof. done. Qed.

Lemma votes_for_snoc l ps p :
  votes_for l (ps ++ [p])
  = (votes_for l ps + if decide (p = l) then 1 else 0)%Z.
Proof.
  unfold votes_for. rewrite filter_app, length_app.
  rewrite filter_cons, filter_nil. case_decide; simpl; lia.
Qed.

Lemma votes_for_cons l ps p :
  votes_for l (p :: ps)
  = (votes_for l ps + if decide (p = l) then 1 else 0)%Z.
Proof.
  unfold votes_for. rewrite filter_cons. case_decide; simpl; lia.
Qed.

Lemma votes_for_nonneg l ps : (0 <= votes_for l ps)%Z.
Proof. unfold votes_for. lia. Qed.

Lemma votes_for_pos l ps : l ∈ ps <-> (0 < votes_for l ps)%Z.
Proof.
  induction ps as [|p ps IH].
  - rewrite votes_for_nil. split; [by intros ?%not_elem_of_nil | lia].
  - rewrite votes_for_cons, elem_of_cons.
    pose proof (votes_for_nonneg l ps). case_decide; subst.
    + split; [lia | by left].
    + rewrite IH. split; [intros [?|?]; [congruence | lia] | right; lia].
Qed.

Lemma map_count_above k m :
  Forall (fun k' => (k < k')%Z) (m.*1) -> map_count k m = 0%Z.
Proof.
  induction m as [|[k' c] m IH]; simpl; [done | ].
  intros [Hk Hm]%Forall_cons. simpl in Hk.
  destruct (Z.eqb_spec k k'); [lia | by apply IH].
Qed.

Lemma map_incr_keys k p m :
  k ∈ (map_incr p m).*1 <-> k = p \/ k ∈ m.*1.
Proof.
  induction m as [|[k' c] m IH]; simpl.
  - rewrite list_elem_of_singleton. split; [by left | intros [?|?%not_elem_of_nil]; done].
  - destruct (Z.ltb_spec p k'); [ | destruct (Z.eqb_spec p k')]; simpl;
      rewrite ?elem_of_cons; rewrite ?IH; simpl; intuition congruence.
Qed.

Lemma map_incr_sorted p m :
  StronglySorted Z.lt (m.*1) -> StronglySorted Z.lt ((map_incr p m).*1).
Proof.
  induction m as [|[k' c] m IH]; simpl; intros Hs.
  - repeat constructor.
  - apply StronglySorted_inv in Hs as [Hs Hall]. simpl in *.
    destruct (Z.ltb_spec p k'); [ | destruct (Z.eqb_spec p k')]; simpl.
    + constructor; [by constructor | ].
      constructor; [done | ].
      eapply Forall_impl; [exact Hall | ]. simpl. intros; lia.
    + by constructor.
    + constructor; [by apply IH | ].
      apply Forall_forall. intros k [->|Hk]%map_incr_keys; [lia | ].
      by eapply Forall_forall in Hall.
Qed.

Lemma map_incr_count k p m :
  StronglySorted Z.lt (m.*1) ->
  map_count k (map_incr p m)
  = (map_count k m + if decide (p = k) then 1 else 0)%Z.
Proof.
  induction m as [|[k' c] m IH]; simpl; intros Hs.
  - destruct (Z.eqb_spec k p); case_decide; congruence || lia.
  - apply StronglySorted_inv in Hs as [Hs Hall]. simpl in *.
    destruct (Z.ltb_spec p k'); [ | destruct (Z.eqb_spec p k')]; simpl.
    + destruct (Z.eqb_spec k p), (Z.eqb_spec k k');
        case_decide; try congruence; try lia.
      subst k. rewrite map_count_above; [lia | ].
      eapply Forall_impl; [exact Hall | ]. simpl. intros; lia.
    + destruct (Z.eqb_spec k k'); case_decide; try congruence; lia.
    + destruct (Z.eqb_spec k k'); [ | by apply IH].
      case_decide; [congruence | lia].
Qed.

Lemma map_count_elem k c m :
  StronglySorted Z.lt (m.*1) -> (k, c) ∈ m -> map_count k m = c.
Proof.
  induction m as [|[k' c'] m IH]; simpl; intros Hs Hin.
  - by apply not_elem_of_nil in Hin.
  - apply StronglySorted_inv in Hs as [Hs Hall]. simpl in *.
    apply elem_of_cons in Hin as [[= -> ->]|Hin].
    + by rewrite Z.eqb_refl.
    + destruct (Z.eqb_spec k k') as [->|_]; [ | by apply IH].
      assert (k' ∈ m.*1) as Hk'
        by (apply list_elem_of_fmap; by exists (k', c)).
      eapply Forall_forall in Hall; [ | exact Hk']. lia.
Qed.

(** The vote map after the tally: its keys are the labels predicted, in
    ascending order, each with its number of votes. *)
Lemma tally_spec ps :
  StronglySorted Z.lt ((RandomForest.tally ps).*1) /\
  (forall k, k ∈ (RandomForest.tally ps).*1 <-> k ∈ ps) /\
  (forall k, map_count k (RandomForest.tally ps) = votes_for k ps).
Proof.
  unfold RandomForest.tally.
  induction ps as [|p ps IH] using rev_ind; simpl.
  - split; [constructor | ]. split; [done | ]. done.
  - rewrite fold_left_app. simpl. destruct IH as (Hs & Hk & Hc).
    split; [by apply map_incr_sorted | ]. split.
    + intros k. rewrite map_incr_keys, Hk, elem_of_app, list_elem_of_singleton.
      tauto.
    + intros k. rewrite map_incr_count, Hc, votes_for_snoc by done. done.
Qed.

(** The scan keeps the first entry, in key order, whose count is the
    greatest: [(r0, c0)] is what it holds before it visits [m]. *)
Lemma majority_fold_spec m : forall r0 c0,
  StronglySorted Z.lt (r0 :: m.*1) ->
  let st := fold_left majority_step m (r0, c0) in
  (st = (r0, c0) \/ st ∈ m) /\
  (c0 <= st.2)%Z /\
  (st.2 = c0 -> st.1 = r0) /\
  (forall k c, (k, c) ∈ m -> (c <= st.2)%Z /\ (c = st.2 -> (st.1 <= k)%Z)).
Proof.
  induction m as [|[k1 c1] m IH]; intros r0 c0 Hs; simpl.
  - split; [by left | ]. split; [lia | ]. split; [done | ].
    intros k c Hin. by apply not_elem_of_nil in Hin.
  - apply StronglySorted_inv in Hs as [Hs Hall]. simpl in Hs.
    apply Forall_cons in Hall as [Hr0 Hall]. simpl in Hr0.
    pose proof (StronglySorted_inv Hs) as [Hs' Hall'].
    replace (majority_step (r0, c0) (k1, c1))
      with (if (c0 <? c1)%Z then (k1, c1) else (r0, c0)) by done.
    destruct (Z.ltb_spec c0 c1) as [Hlt|Hge].
    + destruct (IH k1 c1 Hs) as (Hin & Hle & Htie & Hmax).
      split; [ | split; [lia | split; [lia | ]]].
      * right. destruct Hin as [->|Hin]; [by left | by right].
      * intros k c [[= -> ->]|Hin']%elem_of_cons; [ | by apply Hmax].
        split; [done | ]. intros Heq. rewrite Htie by done. lia.
    + destruct (IH r0 c0) as (Hin & Hle & Htie & Hmax).
      { by constructor. }
      split; [ | split; [done | split; [done | ]]].
      * destruct Hin as [->|Hin]; [by left | right; by right].
      * intros k c [[= -> ->]|Hin']%elem_of_cons; [ | by apply Hmax].
        split; [lia | ]. intros Heq. rewrite Htie by lia. lia.
Qed.

(** The label the vote map yields: one that was predicted, with the
    greatest number of votes, and the smallest such label. *)
Lemma majority_scan_tally ps :
  ps <> [] ->
  let r := majority_scan (RandomForest.tally ps) in
  r ∈ ps /\
  (forall l, (votes_for l ps <= votes_for r ps)%Z) /\
  (forall l, l ∈ ps -> votes_for l ps = votes_for r ps -> (r <= l)%Z).
Proof.
  intros Hne. destruct (tally_spec ps) as (Hs & Hkeys & Hcount).
  destruct (RandomForest.tally ps) as [|[k1 c1] m] eqn:Hm.
  { destruct ps as [|p ps]; [done | ].
    assert (p ∈ ([] : list (Z * Z)).*1) as Hp by (apply Hkeys; by left).
    by apply not_elem_of_nil in Hp. }
  assert (Hk1 : k1 ∈ ps) by (apply Hkeys; by left).
  assert (Hc1 : c1 = votes_for k1 ps).
  { rewrite <- Hcount. simpl. by rewrite Z.eqb_refl. }
  assert (Hpos : (0 < c1)%Z) by (rewrite Hc1; by apply votes_for_pos).
  unfold majority_scan. simpl.
  replace (majority_step (-1, 0)%Z (k1, c1))
    with (if (0 <? c1)%Z then (k1, c1) else ((-1)%Z, 0%Z)) by done.
  destruct (Z.ltb_spec 0 c1) as [_|?]; [ | lia].
  destruct (majority_fold_spec m k1 c1 Hs) as (Hin & Hle & Htie & Hmax).
  set (st := fold_left majority_step m (k1, c1)) in *.
  assert (Hst : st ∈ (k1, c1) :: m).
  { destruct Hin as [->|Hin]; [by left | by right]. }
  assert (Hr : st.1 ∈ ps).
  { apply Hkeys. apply list_elem_of_fmap. by exists st. }
  assert (Hc : st.2 = votes_for st.1 ps).
  { rewrite <- Hcount. symmetry. apply map_count_elem; [done | ].
    by destruct st. }
  assert (Hall : forall l, l ∈ ps ->
            (votes_for l ps <= st.2)%Z /\
            (votes_for l ps = st.2 -> (st.1 <= l)%Z)).
  { intros l Hl. apply Hkeys in Hl.
    apply list_elem_of_fmap in Hl as ([l' c] & -> & Hlc). simpl.
    rewrite <- Hcount, (map_count_elem l' c) by done.
    apply elem_of_cons in Hlc as [[= -> ->]|Hlc]; [ | by apply Hmax].
    split; [done | ]. intros Heq. rewrite Htie by done. lia. }
  split; [done | ]. split.
  - intros l. destruct (decide (l ∈ ps)) as [Hl|Hl].
    + rewrite <- Hc. by apply Hall.
    + assert (~ (0 < votes_for l ps)%Z) by (by rewrite <- votes_for_pos).
      pose proof (votes_for_nonneg st.1 ps). lia.
  - intros l Hl Heq. apply Hall; [done | ]. by rewrite Hc.
Qed.

End VoteMap.

(** ** Vote vectors *)

Section VoteVector.
Implicit Types (v votes : list Z) (ps : list Z).

Lemma vote_in_range votes p x :
  votes !! Z.to_nat p = Some x -> (0 <= p)%Z ->
  RandomForestAlt.vote votes p = Ok (<[Z.to_nat p := (x + 1)%Z]> votes).
Proof.
  intros Hx Hp. unfold RandomForestAlt.vote, vec_at_int, vec_at.
  destruct (Z.ltb_spec p 0); [lia | ]. by rewrite Hx.
Qed.

Lemma vote_out_of_range votes p :
  ~ (0 <= p < Z.of_nat (length votes))%Z ->
  RandomForestAlt.vote votes p = Fault OutOfRange.
Proof.
  intros Hp. unfold RandomForestAlt.vote, vec_at_int, vec_at.
  destruct (Z.ltb_spec p 0); [done | ].
  rewrite lookup_ge_None_2 by lia. done.
Qed.

(** The votes add up position by position. *)
Lemma for_each_vote_runs ps : forall votes,
  Forall (fun p => (0 <= p < Z.of_nat (length votes))%Z) ps ->
  exists votes',
    for_each ps (fun p votes => RandomForestAlt.vote votes p) votes
    = Ok votes' /\
    length votes' = length votes /\
    forall i x, votes !! i = Some x ->
      votes' !! i = Some (x + votes_for (Z.of_nat i) ps)%Z.
Proof.
  induction ps as [|p ps IH]; intros votes Hin; simpl.
  - exists votes. split; [done | ]. split; [done | ].
    intros i x Hx. rewrite votes_for_nil, Z.add_0_r. done.
  - apply Forall_cons in Hin as [Hp Hin].
    destruct (lookup_lt_is_Some_2 votes (Z.to_nat p)) as [x0 Hx0]; [lia | ].
    rewrite (vote_in_range votes p x0) by (done || lia). simpl.
    destruct (IH (<[Z.to_nat p := (x0 + 1)%Z]> votes))
      as (votes' & Hrun & Hlen & Hsum).
    { by rewrite length_insert. }
    exists votes'. split; [done | ].
    rewrite length_insert in Hlen. split; [done | ].
    intros i x Hx. rewrite votes_for_cons.
    destruct (decide (i = Z.to_nat p)) as [->|Hne].
    + rewrite (Hsum (Z.to_nat p) (x0 + 1)%Z).
      * rewrite decide_True by lia. f_equal. simplify_eq. lia.
      * apply list_lookup_insert_eq. by eapply lookup_lt_Some.
    + rewrite (Hsum i x).
      * rewrite decide_False by lia. f_equal. lia.
      * by rewrite list_lookup_insert_ne.
Qed.

Lemma for_each_vote_faults ps : forall votes,
  Exists (fun p => ~ (0 <= p < Z.of_nat (length votes))%Z) ps ->
  for_each ps (fun p votes => RandomForestAlt.vote votes p) votes
  = Fault OutOfRange.
Proof.
  induction ps as [|p ps IH]; intros votes Hex; simpl.
  - by apply Exists_nil in Hex.
  - destruct (decide (0 <= p < Z.of_nat (length votes))%Z) as [Hp|Hp].
    + apply Exists_cons in Hex as [Hex|Hex]; [done | ].
      destruct (lookup_lt_is_Some_2 votes (Z.to_nat p)) as [x0 Hx0]; [lia | ].
      rewrite (vote_in_range votes p x0) by (done || lia). simpl.
      apply IH. by rewrite length_insert.
    + by rewrite vote_out_of_range.
Qed.

Lemma alt_tally_runs num_trees ps :
  (0 <= num_trees)%Z ->
  Forall (fun p => (0 <= p < num_trees)%Z) ps ->
  exists votes,
    RandomForestAlt.tally num_trees ps = Ok votes /\
    length votes = Z.to_nat num_trees /\
    forall l, (0 <= l < num_trees)%Z ->
      votes !! Z.to_nat l = Some (votes_for l ps).
Proof.
  intros Hn Hin. unfold RandomForestAlt.tally, RandomForestAlt.new_votes.
  destruct (Z.ltb_spec num_trees 0); [lia | ]. simpl.
  destruct (for_each_vote_runs ps (replicate (Z.to_nat num_trees) 0%Z))
    as (votes & Hrun & Hlen & Hsum).
  { rewrite length_replicate. eapply Forall_impl; [exact Hin | ].
    simpl. intros; lia. }
  rewrite length_replicate in Hlen.
  exists votes. split; [done | ]. split; [done | ].
  intros l Hl. rewrite (Hsum (Z.to_nat l) 0%Z).
  - f_equal. rewrite Z2Nat.id by lia. lia.
  - apply lookup_replicate_2. lia.
Qed.

Lemma alt_tally_faults num_trees ps :
  (0 <= num_trees)%Z ->
  ~ Forall (fun p => (0 <= p < num_trees)%Z) ps ->
  RandomForestAlt.tally num_trees ps = Fault OutOfRange.
Proof.
  intros Hn Hout. unfold RandomForestAlt.tally, RandomForestAlt.new_votes.
  destruct (Z.ltb_spec num_trees 0); [lia | ]. simpl.
  apply for_each_vote_faults. rewrite length_replicate.
  apply not_Forall_Exists in Hout; [ | intros p; apply _].
  eapply Exists_impl; [exact Hout | ]. simpl. intros; lia.
Qed.

(** [max_element] on what is left, [pre] being the part already visited
    and [largest] the first position of its greatest value. *)
Lemma max_element_from_spec rest : forall pre largest lv,
  pre !! largest = Some lv ->
  (forall j x, pre !! j = Some x ->
     (x <= lv)%Z /\ (x = lv -> largest <= j)) ->
  let r := RandomForestAlt.max_element_from rest largest lv (length pre) in
  exists rv,
    (pre ++ rest) !! r = Some rv /\
    forall j x, (pre ++ rest) !! j = Some x ->
      (x <= rv)%Z /\ (x = rv -> r <= j).
Proof.
  induction rest as [|x rest IH]; intros pre largest lv Hl Hmax; simpl.
  - exists lv. rewrite app_nil_r. done.
  - replace (pre ++ x :: rest) with ((pre ++ [x]) ++ rest)
      by (by rewrite <- app_assoc).
    replace (S (length pre)) with (length (pre ++ [x]))
      by (rewrite length_app; simpl; lia).
    destruct (Z.ltb_spec lv x) as [Hlt|Hge]; apply IH.
    + by rewrite lookup_app_r, Nat.sub_diag.
    + intros j y Hj. apply lookup_app_Some in Hj as [Hj|[Hlen Hj]].
      * destruct (Hmax j y Hj). split; lia.
      * apply list_lookup_singleton_Some in Hj as [_ ->]. split; lia.
    + apply lookup_app_l_Some. done.
    + intros j y Hj. apply lookup_app_Some in Hj as [Hj|[Hlen Hj]].
      * by apply Hmax.
      * apply list_lookup_singleton_Some in Hj as [_ ->].
        pose proof (lookup_lt_Some _ _ _ Hl). split; lia.
Qed.

Lemma max_element_spec v :
  v <> [] ->
  exists rv,
    v !! RandomForestAlt.max_element v = Some rv /\
    forall j x, v !! j = Some x ->
      (x <= rv)%Z /\ (x = rv -> RandomForestAlt.max_element v <= j).
Proof.
  destruct v as [|x rest]; [done | intros _]. simpl.
  apply (max_element_from_spec rest [x] 0 x); [done | ].
  intros j y Hj. apply list_lookup_singleton_Some in Hj as [-> ->].
  split; lia.
Qed.

End VoteVector.

(** ** RandomForest::predict, both versions *)

Section PredictFacts.
Context `{!DoubleOps, !Platform}.

Lemma for_each_pure {A St} (v : list A) (f : A -> St -> St) (s : St) :
  for_each v (fun x s => Ok (f x s)) s = Ok (fold_left (fun s x => f x s) v s).
Proof. revert s. induction v as [|x v IH]; intros s; simpl; [done | apply IH]. Qed.

(** Any loop over the trees that uses each tree through its prediction
    only is a loop over the predictions. *)
Lemma tree_votes_acc feature trees : forall acc out,
  for_each trees
    (fun tree ps => p ← DecisionTree.predict tree feature; Ok (ps ++ [p])) acc
  = Ok out ->
  exists ps,
    out = acc ++ ps /\ length ps = length trees /\
    forall St (step : Z -> St -> result St) (s : St),
      for_each trees
        (fun tree s => p ← DecisionTree.predict tree feature; step p s) s
      = for_each ps step s.
Proof.
  induction trees as [|tree trees IH]; intros acc out Hrun; simpl in *.
  - injection Hrun as <-. exists []. by rewrite app_nil_r.
  - apply bind_Ok in Hrun as (acc' & Hp & Hrun).
    apply bind_Ok in Hp as (p & Hp & [= <-]).
    destruct (IH _ _ Hrun) as (ps & -> & Hlen & Hsteps).
    exists (p :: ps). rewrite <- app_assoc. split; [done | ].
    split; [simpl; lia | ].
    intros St step s. rewrite Hp. simpl.
    destruct (step p s) as [s'|f]; simpl; [apply Hsteps | done].
Qed.

Lemma tree_votes_steps feature trees ps :
  RandomForest.tree_votes trees feature = Ok ps ->
  length ps = length trees /\
  forall St (step : Z -> St -> result St) (s : St),
    for_each trees
      (fun tree s => p ← DecisionTree.predict tree feature; step p s) s
    = for_each ps step s.
Proof.
  intros Hrun. apply tree_votes_acc in Hrun as (ps' & -> & Hlen & Hsteps).
  done.
Qed.

Lemma predict_votes forest feature ps :
  RandomForest.tree_votes (RandomForest.trees_ forest) feature = Ok ps ->
  RandomForest.predict forest feature
  = Ok (majority_scan (RandomForest.tally ps)).
Proof.
  intros [_ Hsteps]%tree_votes_steps. unfold RandomForest.predict.
  rewrite Hsteps, for_each_pure. done.
Qed.

Lemma alt_predict_votes forest feature ps :
  RandomForest.tree_votes (RandomForestAlt.trees_ forest) feature = Ok ps ->
  RandomForestAlt.predict forest feature
  = votes ← RandomForestAlt.tally (RandomForestAlt.num_trees_ forest) ps;
    Ok (Z.of_nat (RandomForestAlt.max_element votes)).
Proof.
  intros [_ Hsteps]%tree_votes_steps.
  unfold RandomForestAlt.predict, RandomForestAlt.tally.
  destruct (RandomForestAlt.new_votes _) as [votes|f]; simpl; [ | done].
  by rewrite Hsteps.
Qed.

(** A tree that is a single leaf predicts its label. *)
Lemma predict_leaf node l feature :
  DecisionTree.predict (DecisionTree.make_leaf node l) feature = Ok l.
Proof. done. Qed.

(** C4: the map-based [predict] returns a label with the greatest number
    of votes among the predictions of the trees, and of the labels that
    reach this number the smallest one; it is one of the predictions as
    soon as there is a tree.  On the predictions 1, 1, 0 it returns 1 and
    on 1, 0, 1, 0 it returns 0. *)
Theorem predict_majority forest feature ps :
  RandomForest.tree_votes (RandomForest.trees_ forest) feature = Ok ps ->
  (exists r,
     RandomForest.predict forest feature = Ok r /\
     (forall l, (votes_for l ps <= votes_for r ps)%Z) /\
     (forall l, l ∈ ps -> votes_for l ps = votes_for r ps -> (r <= l)%Z) /\
     (ps <> [] -> r ∈ ps)) /\
  (forall node query,
     RandomForest.predict
       (RandomForest.mk 3 (DecisionTree.make_leaf node <$> [1; 1; 0]%Z)) query
     = Ok 1%Z /\
     RandomForest.predict
       (RandomForest.mk 4 (DecisionTree.make_leaf node <$> [1; 0; 1; 0]%Z))
       query
     = Ok 0%Z).
Proof.
  intros Hvotes. split; [ | done].
  exists (majority_scan (RandomForest.tally ps)).
  split; [by apply predict_votes | ].
  destruct ps as [|p ps].
  - split; [done | ]. split; [ | done]. by intros l ?%not_elem_of_nil.
  - destruct (majority_scan_tally (p :: ps)) as (Hin & Hmax & Hmin); [done | ].
    done.
Qed.

(** C9, as amended: when the forest has at least one tree, the two
    versions of [predict] return the same label on the same predictions
    lying in [0, num_trees): a predicted label with the greatest number
    of votes, the smallest such. *)
Theorem predict_versions_agree (forest : RandomForest.t)
    (forest' : RandomForestAlt.t) feature ps :
  RandomForest.tree_votes (RandomForest.trees_ forest) feature = Ok ps ->
  RandomForest.tree_votes (RandomForestAlt.trees_ forest') feature = Ok ps ->
  ps <> [] ->
  Forall (fun p => (0 <= p < RandomForestAlt.num_trees_ forest')%Z) ps ->
  exists r,
    RandomForest.predict forest feature = Ok r /\
    RandomForestAlt.predict forest' feature = Ok r /\
    r ∈ ps /\
    (forall l, (votes_for l ps <= votes_for r ps)%Z) /\
    (forall l, l ∈ ps -> votes_for l ps = votes_for r ps -> (r <= l)%Z).
Proof.
  intros Hvotes Hvotes' Hne Hin.
  set (n := RandomForestAlt.num_trees_ forest') in *.
  destruct (majority_scan_tally ps Hne) as (Hr & Hmax & Hmin).
  set (r := majority_scan (RandomForest.tally ps)) in *.
  exists r. split; [by apply predict_votes | ].
  split; [ | done].
  rewrite (alt_predict_votes _ _ ps) by done. fold n.
  assert (Hrn : (0 <= r < n)%Z).
  { eapply Forall_forall in Hin; [ | exact Hr]. done. }
  destruct (alt_tally_runs n ps) as (votes & -> & Hlen & Hcount);
    [lia | done | ]. simpl.
  destruct (max_element_spec votes) as (rv & Hrv & Hbest).
  { intros ->. simpl in Hlen. lia. }
  set (i := RandomForestAlt.max_element votes) in *.
  pose proof (lookup_lt_Some _ _ _ Hrv) as Hi.
  assert (Hci : rv = votes_for (Z.of_nat i) ps).
  { pose proof (Hcount (Z.of_nat i)) as Hc.
    rewrite Nat2Z.id, Hrv in Hc. injection Hc; [done | lia]. }
  destruct (Hbest (Z.to_nat r) (votes_for r ps)) as [Hle Htie];
    [by apply Hcount | ].
  pose proof (Hmax (Z.of_nat i)) as Hle'.
  assert (Heq : votes_for (Z.of_nat i) ps = votes_for r ps) by lia.
  assert (Hip : Z.of_nat i ∈ ps).
  { apply votes_for_pos. rewrite Heq. by apply votes_for_pos. }
  pose proof (Hmin _ Hip Heq). f_equal. lia.
Qed.

(** C10: the alternate [predict] counts the votes in a vector of
    [num_trees] entries indexed by the predicted labels.  It runs to its
    end exactly when every prediction lies in [0, num_trees), and reads
    outside the vector otherwise; a forest of one tree that predicts
    label 1 is such a case. *)
Theorem alt_predict_in_bounds (forest : RandomForestAlt.t) feature ps :
  (0 <= RandomForestAlt.num_trees_ forest)%Z ->
  RandomForest.tree_votes (RandomForestAlt.trees_ forest) feature = Ok ps ->
  (is_Ok (RandomForestAlt.predict forest feature) <->
   Forall (fun p => (0 <= p < RandomForestAlt.num_trees_ forest)%Z) ps) /\
  (~ Forall (fun p => (0 <= p < RandomForestAlt.num_trees_ forest)%Z) ps ->
   RandomForestAlt.predict forest feature = Fault OutOfRange) /\
  (forall node query,
     RandomForestAlt.predict
       (RandomForestAlt.mk 1 [DecisionTree.make_leaf node 1%Z]) query
     = Fault OutOfRange).
Proof.
  intros Hn Hvotes. rewrite (alt_predict_votes _ _ ps) by done.
  assert (Hout :
    ~ Forall (fun p => (0 <= p < RandomForestAlt.num_trees_ forest)%Z) ps ->
    RandomForestAlt.tally (RandomForestAlt.num_trees_ forest) ps ≫=
      (fun votes => Ok (Z.of_nat (RandomForestAlt.max_element votes)))
    = Fault OutOfRange).
  { intros Hbad. by rewrite alt_tally_faults. }
  split; [ | split; [done | done]].
  split.
  - intros [r Hr].
    destruct (decide (Forall
      (fun p => (0 <= p < RandomForestAlt.num_trees_ forest)%Z) ps))
      as [Hall|Hbad]; [done | ].
    rewrite Hout in Hr by done. discriminate.
  - intros Hall. destruct (alt_tally_runs _ ps Hn Hall) as (votes & -> & _).
    simpl. by eexists.
Qed.

End PredictFacts.

(** ** evaluate *)

Section EvaluateFacts.
Context `{!DoubleOps, !Platform}.

(** The number of correct predictions lies between 0 and the number of
    rows. *)
Lemma count_correct_bounds predict test_data c :
  RandomForest.count_correct predict test_data = Ok c ->
  (0 <= c <= Z.of_nat (length test_data))%Z.
Proof.
  unfold RandomForest.count_correct.
  assert (Hgen : forall c0 c,
    for_each test_data
      (fun data_point correct_predictions =>
         '(features, l) ← DecisionTree.split_row data_point;
         let true_label := to_int l in
         predicted ← predict features;
         Ok (if (predicted =? true_label)%Z
             then (correct_predictions + 1)%Z
             else correct_predictions)) c0 = Ok c ->
    (c0 <= c <= c0 + Z.of_nat (length test_data))%Z).
  { induction test_data as [|row rest IH]; intros c0 c' Hrun; simpl in Hrun.
    - injection Hrun as <-. simpl. lia.
    - apply bind_Ok in Hrun as (c1 & Hstep & Hrun).
      apply bind_Ok in Hstep as ([features l] & _ & Hstep).
      apply bind_Ok in Hstep as (predicted & _ & [= <-]).
      apply IH in Hrun. simpl length.
      destruct (predicted =? to_int l)%Z; lia. }
  intros Hrun. apply Hgen in Hrun. lia.
Qed.

(** C6, what the code does: on an empty test set both versions of
    [evaluate] carry out the division of 0 by the size 0; the sibling
    [calculate_accuracy] tests for a zero total and returns 0 without
    dividing. *)
Theorem evaluate_empty_unguarded (forest : RandomForest.t)
    (forest' : RandomForestAlt.t) (a : double) :
  RandomForest.evaluate forest [] = Ok (ddiv (of_int 0) (of_size 0)) /\
  RandomForestAlt.evaluate forest' [] = Ok (ddiv (of_int 0) (of_size 0)) /\
  RandomForest.accuracy
    (RandomForest.calculate_accuracy (RandomForest.mkMetrics 0 0 0 0 a))
  = of_int 0.
Proof. done. Qed.

End EvaluateFacts.

(** ** k-fold cross-validation *)

Section FoldBounds.
Local Open Scope Z_scope.

(** With [1 <= k <= n] the folds have [n / k >= 1] positions each, the
    last one going up to [n]; no product exceeds [n], so none leaves the
    range of [int]. *)
Lemma fold_bounds_spec n k i :
  1 <= k <= n -> 0 <= i < k ->
  RandomForest.fold_bounds n k i
  = (i * (n / k), if decide (i = k - 1) then n else i * (n / k) + n / k) /\
  1 <= n / k /\
  0 <= i * (n / k) /\
  i * (n / k) < snd (RandomForest.fold_bounds n k i) <= n /\
  (i + 1) * (n / k) <= n.
Proof.
  intros Hk Hi. unfold RandomForest.fold_bounds.
  rewrite Z.quot_div_nonneg by lia.
  assert (Hq : 1 <= n / k) by (apply Z.div_le_lower_bound; lia).
  assert (Hkq : k * (n / k) <= n) by (apply Z.mul_div_le; lia).
  assert (Hiq : (i + 1) * (n / k) <= k * (n / k))
    by (apply Z.mul_le_mono_nonneg_r; lia).
  simpl. destruct (Z.eqb_spec i (k - 1)); case_decide; try lia.
  - repeat split; lia.
  - repeat split; try lia. f_equal. lia.
Qed.


End FoldBounds.

Section FoldSets.
Context {A : Type}.
Implicit Types (data : list A) (indices : list nat).

Lemma rows_at_app data indices js js' :
  rows_at data indices (js ++ js')
  = rows_at data indices js ++ rows_at data indices js'.
Proof. apply omap_app. Qed.

Lemma rows_at_singleton data indices j idx row :
  indices !! j = Some idx -> data !! idx = Some row ->
  rows_at data indices [j] = [row].
Proof. intros Hj Hidx. unfold rows_at. simpl. rewrite Hj. simpl. by rewrite Hidx. Qed.

Lemma rows_at_length data indices js :
  (forall j, j ∈ js -> j < length indices) ->
  (forall idx, idx ∈ indices -> idx < length data) ->
  length (rows_at data indices js) = length js.
Proof.
  intros Hjs Hidx. induction js as [|j js IH]; [done | ].
  destruct (lookup_lt_is_Some_2 indices j) as [idx Hj];
    [apply Hjs; by left | ].
  destruct (lookup_lt_is_Some_2 data idx) as [row Hrow].
  { apply Hidx. by eapply list_elem_of_lookup_2. }
  change (j :: js) with ([j] ++ js).
  rewrite rows_at_app, (rows_at_singleton _ _ _ idx row) by done.
  simpl. f_equal. apply IH. intros j' Hj'. apply Hjs. by right.
Qed.

(** The loop over [j] puts the rows of the positions [start, end) in the
    test set and those of the other positions in the training set, in the
    order of the positions. *)
Lemma fold_sets_range data indices (n s e : nat) :
  s <= e <= n -> length indices = n ->
  (forall idx, idx ∈ indices -> idx < length data) ->
  RandomForest.fold_sets data indices (Z.of_nat n) (Z.of_nat s) (Z.of_nat e)
  = Ok (rows_at data indices (seq 0 s ++ seq e (n - e)),
        rows_at data indices (seq s (e - s))).
Proof.
  intros Hse Hlen Hidx. unfold RandomForest.fold_sets. rewrite Nat2Z.id.
  destruct (for_range_runs
    (fun j st =>
       st = (rows_at data indices (seq 0 (j `min` s) ++ seq e (j - e)),
             rows_at data indices (seq s (j `min` e - s))))
    (fun j '(trainSet, testSet) =>
       idx ← vec_at indices j;
       row ← vec_at data idx;
       if (Z.of_nat s <=? Z.of_nat j)%Z && (Z.of_nat j <? Z.of_nat e)%Z
       then Ok (trainSet, testSet ++ [row])
       else Ok (trainSet ++ [row], testSet))
    0 n ([], [])) as (r & Hrun & Hr).
  - done.
  - intros j [trainSet testSet] Hj Hst.
    destruct (lookup_lt_is_Some_2 indices j) as [idx Hij]; [lia | ].
    destruct (lookup_lt_is_Some_2 data idx) as [row Hrow].
    { apply Hidx. by eapply list_elem_of_lookup_2. }
    pose proof (rows_at_singleton _ _ _ _ _ Hij Hrow) as Hone.
    apply vec_at_Ok in Hij as Hij', Hrow as Hrow'.
    rewrite Hij'. cbn [mbind result_bind]. rewrite Hrow'.
    cbn [mbind result_bind]. injection Hst as -> ->.
    destruct (Z.leb_spec (Z.of_nat s) (Z.of_nat j)),
             (Z.ltb_spec (Z.of_nat j) (Z.of_nat e)); cbn [andb];
      eexists; (split; [done | ]); f_equal.
    + replace (S j `min` s) with (j `min` s) by lia.
      by replace (S j - e) with (j - e) by lia.
    + replace (S j `min` e - s) with (S (j `min` e - s)) by lia.
      rewrite seq_S, rows_at_app. do 2 f_equal.
      rewrite <- Hone. do 2 f_equal. lia.
    + replace (S j `min` s) with (j `min` s) by lia.
      replace (S j - e) with (S (j - e)) by lia.
      rewrite seq_S, !rows_at_app, <- app_assoc. do 2 f_equal.
      rewrite <- Hone. do 2 f_equal. lia.
    + by replace (S j `min` e - s) with (j `min` e - s) by lia.
    + replace (j - e) with 0 by lia. replace (S j - e) with 0 by lia.
      replace (S j `min` s) with (S (j `min` s)) by lia.
      simpl seq at 2 4. rewrite !app_nil_r, seq_S, rows_at_app. f_equal.
      rewrite <- Hone. do 2 f_equal. lia.
    + by replace (S j `min` e - s) with (j `min` e - s) by lia.
    + exfalso; lia.
    + exfalso; lia.
  - rewrite Hrun, Hr. simpl.
    replace (n `min` s) with s by lia. by replace (n `min` e) with e by lia.
Qed.

End FoldSets.

Section KFoldFacts.
Context `{!DoubleOps, !Platform}.

Lemma shuffled_indices (indices : list nat) n :
  indices ≡ₚ seq 0 n ->
  length indices = n /\
  NoDup indices /\
  (forall idx, idx ∈ indices -> idx < n) /\
  (forall r, r < n -> exists j, indices !! j = Some r).
Proof.
  intros Hperm. split; [by rewrite Hperm, length_seq | ].
  split; [rewrite Hperm; apply NoDup_seq | ]. split.
  - intros idx. rewrite Hperm, elem_of_seq. lia.
  - intros r Hr. apply list_elem_of_lookup. rewrite Hperm, elem_of_seq. lia.
Qed.





End KFoldFacts.

(** * Further properties *)

(** ** Labels of a range *)

Section LabelFacts.
Implicit Types (labels : list Z).

Lemma label_range_snoc labels start j l :
  start <= j -> labels !! j = Some l ->
  label_range labels start (S j) = label_range labels start j ++ [l].
Proof.
  intros Hj Hl. unfold label_range.
  replace (S j - start) with (S (j - start)) by lia.
  apply take_S_r. rewrite lookup_drop. by replace (start + (j - start)) with j by lia.
Qed.

Lemma label_range_elem labels start end_ l :
  l ∈ label_range labels start end_ <->
  exists k, start <= k < end_ /\ labels !! k = Some l.
Proof.
  unfold label_range. rewrite list_elem_of_lookup. split.
  - intros [i Hi]. apply lookup_take_Some in Hi as [Hi Hlt].
    rewrite lookup_drop in Hi. exists (start + i). split; [lia | done].
  - intros (k & Hk & Hl). exists (k - start).
    apply lookup_take_Some. split; [ | lia].
    rewrite lookup_drop. by replace (start + (k - start)) with k by lia.
Qed.

(** The count map of [determine_label] and of [find_best_split] is the
    vote map of the labels of the range. *)
Lemma count_labels_tally labels start end_ :
  end_ <= length labels ->
  DecisionTree.count_labels labels start end_
  = Ok (RandomForest.tally (label_range labels start end_)).
Proof.
  intros Hend. unfold DecisionTree.count_labels.
  destruct (for_range_runs
    (fun j counts => counts = RandomForest.tally (label_range labels start j))
    (fun i counts => x ← vec_at labels i; Ok (map_incr x counts))
    start (end_ - start) []) as (r & Hrun & Hr).
  - unfold label_range. by rewrite Nat.sub_diag.
  - intros j counts Hj ->.
    destruct (lookup_lt_is_Some_2 labels j) as [l Hl]; [lia | ].
    apply vec_at_Ok in Hl as Hl'. rewrite Hl'. cbn [mbind result_bind].
    eexists. split; [done | ].
    rewrite (label_range_snoc _ _ _ l) by (done || lia).
    unfold RandomForest.tally. by rewrite fold_left_app.
  - rewrite Hrun, Hr. do 2 f_equal. unfold label_range. f_equal. lia.
Qed.

Lemma count_labels_bound labels start end_ counts :
  DecisionTree.count_labels labels start end_ = Ok counts ->
  start < end_ -> end_ <= length labels.
Proof.
  unfold DecisionTree.count_labels. intros Hrun Hlt.
  enough (start < start + (end_ - start) ->
          start + (end_ - start) <= length labels) by lia.
  refine (for_range_inv (fun j _ => start < j -> j <= length labels)
            _ _ _ _ _ _ _ Hrun); [lia | ].
  intros j t t' Hj _ Hstep _.
  apply bind_Ok in Hstep as (l & Hl & _). apply vec_at_Ok in Hl.
  apply lookup_lt_Some in Hl. lia.
Qed.

(** [determine_label] on a non-empty range inside the label vector: a
    label of the range with the greatest number of occurrences in it,
    and the smallest such label. *)
Theorem determine_label_majority labels start end_ :
  start < end_ <= length labels ->
  exists r,
    DecisionTree.determine_label labels start end_ = Ok r /\
    (exists k, start <= k < end_ /\ labels !! k = Some r) /\
    (forall l, (votes_for l (label_range labels start end_)
                <= votes_for r (label_range labels start end_))%Z) /\
    (forall l k, start <= k < end_ -> labels !! k = Some l ->
       votes_for l (label_range labels start end_)
       = votes_for r (label_range labels start end_) -> (r <= l)%Z).
Proof.
  intros Hrange. unfold DecisionTree.determine_label.
  rewrite count_labels_tally by lia. cbn [mbind result_bind].
  assert (Hne : label_range labels start end_ <> []).
  { destruct (lookup_lt_is_Some_2 labels start) as [l Hl]; [lia | ].
    intros Hnil.
    assert (l ∈ label_range labels start end_) as Hin
      by (apply label_range_elem; exists start; split; [lia | done]).
    rewrite Hnil in Hin. by apply not_elem_of_nil in Hin. }
  destruct (majority_scan_tally _ Hne) as (Hin & Hmax & Hmin).
  eexists. split; [done | ]. split; [by apply label_range_elem | ].
  split; [done | ].
  intros l k Hk Hl. apply Hmin. apply label_range_elem. by exists k.
Qed.

(** On an empty range [determine_label] returns its initial -1. *)
Lemma determine_label_empty labels start end_ :
  end_ <= start -> DecisionTree.determine_label labels start end_ = Ok (-1)%Z.
Proof.
  intros Hle. unfold DecisionTree.determine_label, DecisionTree.count_labels.
  by replace (end_ - start) with 0 by lia.
Qed.

Lemma same_label_from_spec labels first i n :
  i + n <= length labels ->
  exists b,
    DecisionTree.same_label_from labels first i n = Ok b /\
    (b = true <-> forall k, i <= k < i + n -> labels !! k = Some first).
Proof.
  revert i. induction n as [|n IH]; intros i Hlen; simpl.
  - exists true. split; [done | ]. split; [intros _ k Hk; lia | done].
  - destruct (lookup_lt_is_Some_2 labels i) as [l Hl]; [lia | ].
    apply vec_at_Ok in Hl as Hl'. rewrite Hl'. cbn [mbind result_bind].
    destruct (Z.eqb_spec l first) as [->|Hne].
    + destruct (IH (S i)) as (b & Hrun & Hb); [lia | ].
      exists b. split; [done | ]. rewrite Hb. split.
      * intros Hall k Hk. destruct (decide (k = i)) as [->|?]; [done | ].
        apply Hall. lia.
      * intros Hall k Hk. apply Hall. lia.
    + exists false. split; [done | ]. split; [done | ].
      intros Hall. specialize (Hall i ltac:(lia)). congruence.
Qed.

(** [should_be_leaf] on a non-empty range inside the label vector says
    whether the labels of the range are all the same. *)
Theorem should_be_leaf_iff labels start end_ :
  start < end_ <= length labels ->
  exists b,
    DecisionTree.should_be_leaf labels start end_ = Ok b /\
    (b = true <->
     exists l, forall k, start <= k < end_ -> labels !! k = Some l).
Proof.
  intros Hrange. unfold DecisionTree.should_be_leaf.
  destruct (lookup_lt_is_Some_2 labels start) as [first Hfirst]; [lia | ].
  apply vec_at_Ok in Hfirst as Hfirst'. rewrite Hfirst'.
  cbn [mbind result_bind].
  destruct (same_label_from_spec labels first (S start) (end_ - S start))
    as (b & Hrun & Hb); [lia | ].
  exists b. split; [done | ]. rewrite Hb. split.
  - intros Hall. exists first. intros k Hk.
    destruct (decide (k = start)) as [->|?]; [done | ]. apply Hall. lia.
  - intros [l Hall] k Hk.
    assert (l = first) as -> by (specialize (Hall start ltac:(lia)); congruence).
    apply Hall. lia.
Qed.

End LabelFacts.


(** ** Faults of the tree functions *)

Create HintDb oor discriminated.

Lemma oor_Ok {A} (a : A) : only_out_of_range (Ok a).
Proof. intros f. discriminate. Qed.

Lemma oor_Fault {A} : only_out_of_range (@Fault A OutOfRange).
Proof. intros f [= <-]. done. Qed.

Lemma oor_bind {A B} (m : result A) (k : A -> result B) :
  only_out_of_range m -> (forall a, m = Ok a -> only_out_of_range (k a)) ->
  only_out_of_range (m ≫= k).
Proof.
  destruct m as [a|f]; intros Hm Hk; [by apply Hk | ].
  intros f' Hf'. cbv in Hf'. apply Hm. congruence.
Qed.

Lemma vec_at_oor {A} (v : list A) i : only_out_of_range (vec_at v i).
Proof. unfold vec_at. destruct (v !! i); [apply oor_Ok | apply oor_Fault]. Qed.

Lemma vec_at_int_oor {A} (v : list A) i : only_out_of_range (vec_at_int v i).
Proof.
  unfold vec_at_int. destruct (i <? 0)%Z; [apply oor_Fault | apply vec_at_oor].
Qed.

Lemma for_range_oor {St} body i n (s : St) :
  (forall j t, only_out_of_range (body j t)) ->
  only_out_of_range (for_range i n body s).
Proof.
  intros Hbody. revert i s. induction n as [|n IH]; intros i s; simpl.
  - apply oor_Ok.
  - apply oor_bind; [apply Hbody | intros s' _; apply IH].
Qed.

Lemma vec_swap_oor {A} (v : list A) a b : only_out_of_range (vec_swap v a b).
Proof.
  unfold vec_swap.
  repeat (apply oor_bind; [apply vec_at_oor | intros ? _]). apply oor_Ok.
Qed.

#[local] Hint Resolve oor_Ok oor_Fault vec_at_oor vec_at_int_oor
  vec_swap_oor : oor.
#[local] Hint Extern 2 (only_out_of_range (_ ≫= _)) =>
  apply oor_bind; [ | intros ? _] : oor.
#[local] Hint Extern 3 (only_out_of_range (if ?b then _ else _)) =>
  destruct b : oor.
#[local] Hint Extern 3 (only_out_of_range (for_range _ _ _ _)) =>
  apply for_range_oor; intros ? ? : oor.

Section SplitFacts.
Context `{!DoubleOps}.

Lemma same_label_from_oor labels first i n :
  only_out_of_range (DecisionTree.same_label_from labels first i n).
Proof.
  revert i. induction n as [|n IH]; intros i; simpl; [apply oor_Ok | ].
  apply oor_bind; [apply vec_at_oor | intros l _].
  destruct (l =? first)%Z; [apply IH | apply oor_Ok].
Qed.

Lemma should_be_leaf_oor labels start end_ :
  only_out_of_range (DecisionTree.should_be_leaf labels start end_).
Proof.
  unfold DecisionTree.should_be_leaf.
  apply oor_bind; [apply vec_at_oor | intros first _].
  apply same_label_from_oor.
Qed.

Lemma count_labels_oor labels start end_ :
  only_out_of_range (DecisionTree.count_labels labels start end_).
Proof. unfold DecisionTree.count_labels. auto with oor. Qed.

Lemma determine_label_oor labels start end_ :
  only_out_of_range (DecisionTree.determine_label labels start end_).
Proof.
  unfold DecisionTree.determine_label.
  apply oor_bind; [apply count_labels_oor | auto with oor].
Qed.

Lemma find_best_split_oor features labels start end_ fi :
  only_out_of_range
    (DecisionTree.find_best_split features labels start end_ fi).
Proof.
  unfold DecisionTree.find_best_split.
  apply oor_bind; [apply count_labels_oor | intros rc _].
  apply oor_bind; [ | auto with oor].
  apply for_range_oor. intros j s.
  unfold DecisionTree.sweep_step. auto 12 with oor.
Qed.

Lemma search_split_oor features labels start end_ sampled b :
  only_out_of_range
    (DecisionTree.search_split features labels start end_ sampled b).
Proof.
  revert b. induction sampled as [|fi rest IH]; intros b; simpl.
  - apply oor_Ok.
  - apply oor_bind; [apply find_best_split_oor | intros r _]. apply IH.
Qed.

Lemma partition_data_oor features start end_ fi th :
  only_out_of_range (DecisionTree.partition_data features start end_ fi th).
Proof.
  unfold DecisionTree.partition_data, DecisionTree.partition_loop.
  apply oor_bind.
  - apply for_range_oor. intros j [mid fs].
    unfold DecisionTree.partition_step. auto 8 with oor.
  - intros [mid fs] _. apply oor_Ok.
Qed.

(** ** find_best_split *)

Lemma sweep_step_inv features labels fi start end_ j s s' :
  start <= j -> S j < end_ ->
  sweep_inv features labels fi start end_ j s ->
  DecisionTree.sweep_step features labels fi j s = Ok s' ->
  sweep_inv features labels fi start end_ (S j) s'.
Proof.
  intros Hj Hend [Hlc Hrc Hls Hrs Hbest] Hstep.
  unfold DecisionTree.sweep_step in Hstep.
  apply bind_Ok in Hstep as (l & Hl & Hstep). apply vec_at_Ok in Hl.
  apply bind_Ok in Hstep as (row & Hrow & Hstep).
  apply bind_Ok in Hstep as (a & Ha & Hstep).
  apply bind_Ok in Hstep as (next & Hnext & Hstep).
  apply bind_Ok in Hstep as (b & Hb & Hstep).
  assert (Hca : column features fi j = Ok a)
    by (unfold column; by rewrite Hrow).
  assert (Hcb : column features fi (S j) = Ok b).
  { unfold column. rewrite Nat.add_1_r in Hnext. by rewrite Hnext. }
  assert (Hlc' : map_incr l (DecisionTree.left_counts s)
                 = RandomForest.tally (label_range labels start (S j))).
  { rewrite (label_range_snoc _ _ _ l) by done.
    unfold RandomForest.tally. by rewrite fold_left_app, Hlc. }
  assert (Hrc' : map_decr l (DecisionTree.right_counts s)
                 = fold_left (fun counts l => map_decr l counts)
                     (label_range labels start (S j))
                     (RandomForest.tally (label_range labels start end_))).
  { rewrite (label_range_snoc _ _ _ l) by done.
    by rewrite fold_left_app, Hrc. }
  assert (Hls' : (DecisionTree.left_size s + 1)%Z = Z.of_nat (S j - start))
    by lia.
  assert (Hrs' : (DecisionTree.right_size s - 1)%Z = Z.of_nat (end_ - S j))
    by lia.
  assert (Hg : DecisionTree.calculate_gini_index
                 (map_incr l (DecisionTree.left_counts s))
                 (map_decr l (DecisionTree.right_counts s))
                 (DecisionTree.left_size s + 1)
                 (DecisionTree.right_size s - 1)
               = split_gini labels start end_ j).
  { unfold split_gini. by rewrite Hlc', Hrc', Hls', Hrs'. }
  rewrite Hg in Hstep.
  destruct (dneq a b) eqn:Hne;
    [destruct (dlt (split_gini labels start end_ j) (DecisionTree.best_gini s))
       eqn:Hlt | ];
    injection Hstep as <-; split; simpl; try done.
  - right. exists j, a, b. split; [lia | ]. do 5 (split; [done | ]).
    intros i' a' b' Hi'. lia.
  - destruct Hbest as [(Hg0 & Ht0 & Hnone)|(i & a0 & b0 & Hi & Ha0 & Hb0 & Hne0
                                            & Hth & Hgi & Hlater)].
    + left. split; [done | ]. split; [done | ].
      intros i a' b' Hi Ha' Hb' Hne'.
      destruct (decide (i = j)) as [->|Hij]; [by rewrite <- Hg0 | ].
      apply (Hnone i a' b'); [lia | done | done | done].
    + right. exists i, a0, b0. split; [lia | ]. do 5 (split; [done | ]).
      intros i' a' b' Hi' Ha' Hb' Hne'.
      destruct (decide (i' = j)) as [->|Hij]; [done | ].
      apply (Hlater i' a' b'); [lia | done | done | done].
  - destruct Hbest as [(Hg0 & Ht0 & Hnone)|(i & a0 & b0 & Hi & Ha0 & Hb0 & Hne0
                                            & Hth & Hgi & Hlater)].
    + left. split; [done | ]. split; [done | ].
      intros i a' b' Hi Ha' Hb' Hne'.
      destruct (decide (i = j)) as [->|Hij]; [congruence | ].
      apply (Hnone i a' b'); [lia | done | done | done].
    + right. exists i, a0, b0. split; [lia | ]. do 5 (split; [done | ]).
      intros i' a' b' Hi' Ha' Hb' Hne'.
      destruct (decide (i' = j)) as [->|Hij]; [congruence | ].
      apply (Hlater i' a' b'); [lia | done | done | done].
Qed.

(** The sweep, from its first row to its last. *)
Lemma find_best_split_sweep features labels start end_ fi r :
  start < end_ ->
  DecisionTree.find_best_split features labels start end_ fi = Ok r ->
  (DecisionTree.gini r = dmax /\ DecisionTree.split_threshold r = of_int 0 /\
   forall i a b, start <= i -> S i < end_ ->
     column features fi i = Ok a -> column features fi (S i) = Ok b ->
     dneq a b = true ->
     dlt (split_gini labels start end_ i) dmax = false) \/
  (exists i a b, start <= i /\ S i < end_ /\
     column features fi i = Ok a /\ column features fi (S i) = Ok b /\
     dneq a b = true /\
     DecisionTree.split_threshold r = ddiv (dadd a b) (of_int 2) /\
     DecisionTree.gini r = split_gini labels start end_ i /\
     forall i' a' b', i < i' -> S i' < end_ ->
       column features fi i' = Ok a' -> column features fi (S i') = Ok b' ->
       dneq a' b' = true ->
       dlt (split_gini labels start end_ i') (DecisionTree.gini r) = false).
Proof.
  intros Hrange. unfold DecisionTree.find_best_split. intros Hrun.
  apply bind_Ok in Hrun as (rc & Hrc & Hrun).
  apply bind_Ok in Hrun as (s & Hloop & [= <-]). simpl.
  pose proof (count_labels_bound _ _ _ _ Hrc Hrange) as Hlen.
  rewrite count_labels_tally in Hrc by done. injection Hrc as <-.
  destruct end_ as [|e]; [lia | ]. cbn [size_pred] in Hloop.
  assert (Hlast : start + (e - start) = e) by lia.
  apply (for_range_inv (sweep_inv features labels fi start (S e))) in Hloop.
  - rewrite Hlast in Hloop. destruct Hloop as [_ _ _ _ Hbest].
    destruct Hbest as [(Hg0 & Ht0 & Hnone)|(i & a & b & Hi & Ha & Hb & Hne
                                            & Hth & Hgi & Hlater)].
    + left. split; [done | ]. split; [done | ].
      intros i a b Hi Hi'. apply Hnone. lia.
    + right. exists i, a, b. split; [lia | ]. split; [lia | ].
      do 5 (split; [done | ]).
      intros i' a' b' Hi' Hi''. apply Hlater. lia.
  - assert (Hnil : label_range labels start start = [])
      by (unfold label_range; by rewrite Nat.sub_diag).
    split; simpl.
    + by rewrite Hnil.
    + by rewrite Hnil.
    + lia.
    + done.
    + left. split; [done | ]. split; [done | ]. intros i a b Hi. lia.
  - intros j t t' Hj Ht Hstep.
    apply (sweep_step_inv _ _ _ start (S e) j t t'); [lia | lia | done | done].
Qed.

(** The form the tree builder uses: the threshold is 0 with the greatest
    impurity, or the midpoint of two adjacent rows that differ. *)
Lemma find_best_split_threshold_aux features labels start end_ fi r :
  start < end_ ->
  DecisionTree.find_best_split features labels start end_ fi = Ok r ->
  (DecisionTree.gini r = dmax /\ DecisionTree.split_threshold r = of_int 0) \/
  (exists i a b, start <= i /\ S i < end_ /\
     column features fi i = Ok a /\ column features fi (S i) = Ok b /\
     dneq a b = true /\
     DecisionTree.split_threshold r = ddiv (dadd a b) (of_int 2)).
Proof.
  intros Hrange Hrun.
  destruct (find_best_split_sweep _ _ _ _ _ _ Hrange Hrun)
    as [(Hg & Ht & _)|(i & a & b & Hi & Hi' & Ha & Hb & Hne & Hth & _)];
    [by left | ].
  right. by exists i, a, b.
Qed.


(** When no two adjacent rows of a non-empty range differ in the
    feature, [find_best_split] returns the greatest [double] and the
    threshold 0: there is no split on this feature. *)
Theorem find_best_split_constant features labels start end_ fi r :
  start < end_ ->
  (forall i a b, start <= i -> S i < end_ ->
     column features fi i = Ok a -> column features fi (S i) = Ok b ->
     dneq a b = false) ->
  DecisionTree.find_best_split features labels start end_ fi = Ok r ->
  DecisionTree.gini r = dmax /\ DecisionTree.split_threshold r = of_int 0.
Proof.
  intros Hrange Hconst Hrun.
  destruct (find_best_split_threshold_aux features labels start end_ fi r
              Hrange Hrun)
    as [Hnone|(i & a & b & Hi & Hi' & Ha & Hb & Hne & _)]; [done | ].
  rewrite (Hconst i a b) in Hne by done. discriminate.
Qed.

End SplitFacts.


(** ** build_tree and train *)

Section TreeFacts.
Context `{!DoubleOps, !Platform}.

Lemma build_tree_oor labels sampled fuel :
  forall node features start end_,
    end_ - start < fuel ->
    only_out_of_range
      (DecisionTree.build_tree fuel node features labels start end_ sampled).
Proof.
  induction fuel as [|fuel IH]; intros node features start end_ Hfuel;
    [lia | ].
  simpl. destruct (end_ <=? start); [apply oor_Ok | ].
  apply oor_bind; [apply should_be_leaf_oor | ].
  intros [|] Hleaf.
  - apply oor_bind; [apply determine_label_oor | intros l _; apply oor_Ok].
  - apply should_be_leaf_false in Hleaf.
    apply oor_bind; [apply search_split_oor | intros b _].
    apply oor_bind; [apply partition_data_oor | ].
    intros [mid fs1] Hpart.
    apply partition_data_progress in Hpart; [ | done].
    apply oor_bind; [apply IH; lia | intros [l fs2] _].
    apply oor_bind; [apply IH; lia | intros [r fs3] _].
    apply oor_Ok.
Qed.

(** The rows are split into features and labels unless one of them is
    empty. *)
Lemma split_rows_faults data_vec f :
  DecisionTree.split_rows data_vec = Fault f ->
  f = LengthError /\ [] ∈ data_vec.
Proof.
  induction data_vec as [|row rest IH]; simpl; [done | ].
  destruct row as [|x row].
  - intros [= <-]. split; [done | apply list_elem_of_here].
  - assert (Hrow : exists p, DecisionTree.split_row (x :: row) = Ok p).
    { unfold DecisionTree.split_row.
      destruct (last (x :: row)) as [l|] eqn:Hlast; [by eexists | ].
      by apply last_None in Hlast. }
    destruct Hrow as [[fs l] ->]. cbn [mbind result_bind].
    destruct (DecisionTree.split_rows rest) as [[fss ls]|f'] eqn:Hrest;
      cbn [mbind result_bind]; [done | ].
    intros [= <-]. destruct (IH eq_refl) as [-> Hin].
    split; [done | by apply list_elem_of_further].
Qed.

Lemma split_rows_empty_row data_vec :
  [] ∈ data_vec -> DecisionTree.split_rows data_vec = Fault LengthError.
Proof.
  induction data_vec as [|row rest IH]; [by intros ?%not_elem_of_nil | ].
  intros [<-|Hin]%elem_of_cons; simpl; [done | ].
  destruct (DecisionTree.split_row row) as [[f l]|f] eqn:Hrow.
  - cbn [mbind result_bind]. by rewrite IH.
  - unfold DecisionTree.split_row in Hrow. destruct (last row); [done | ].
    by injection Hrow as <-.
Qed.

(** [train] from the split of the rows on, with the candidate features
    it has chosen. *)
Lemma train_build_faults root data_vec candidates f :
  ('(features, labels) ← DecisionTree.split_rows data_vec;
   '(root', _) ←
     DecisionTree.build_tree (S (length data_vec)) root features labels
       0 (length data_vec) candidates;
   Ok root') = Fault f ->
  f = OutOfRange \/ (f = LengthError /\ [] ∈ data_vec).
Proof.
  destruct (DecisionTree.split_rows data_vec) as [[features labels]|f']
    eqn:Hsplit; cbn [mbind result_bind].
  - intros Hrun. left. revert Hrun.
    match goal with |- ?r = Fault f -> _ =>
      assert (only_out_of_range r) as Hoor end; [ | apply Hoor].
    apply oor_bind; [apply build_tree_oor; lia | ].
    intros [root' fs'] _. apply oor_Ok.
  - intros [= <-]. right. by apply split_rows_faults.
Qed.

(** A [train] with the default feature set that returns a tree: the
    first row has a label, the candidate features are the columns before
    it, and the tree is the one [build_tree] makes of the root. *)
Lemma train_default_Ok root data_vec tree row0 :
  DecisionTree.train root data_vec [] = Ok tree ->
  data_vec !! 0 = Some row0 ->
  exists m features labels fs,
    length row0 = S m /\
    DecisionTree.split_rows data_vec = Ok (features, labels) /\
    DecisionTree.build_tree (S (length data_vec)) root features labels
      0 (length data_vec) (iteration_order (Z.of_nat <$> seq 0 m))
    = Ok (tree, fs).
Proof.
  unfold DecisionTree.train. intros Hrun Hrow0.
  rewrite (proj2 (vec_at_Ok data_vec 0 row0) Hrow0) in Hrun.
  cbn [mbind result_bind] in Hrun.
  destruct row0 as [|x row0]; cbn [length mbind result_bind] in Hrun.
  - apply bind_Ok in Hrun as (p & Hsplit & _).
    rewrite split_rows_empty_row in Hsplit; [done | ].
    by eapply list_elem_of_lookup_2.
  - apply bind_Ok in Hrun as ([features labels] & Hsplit & Hrun).
    apply bind_Ok in Hrun as ([root' fs] & Hbuild & [= <-]).
    by exists (length row0), features, labels, fs.
Qed.

(** Unless the first row is empty and no feature set is given (there
    [size() - 1] wraps, and the loop over the columns runs through every
    [size_t]), a [train] that returns no tree has stopped at a read
    outside a vector, or at the [std::length_error] thrown when the
    features of an empty row are copied.  The recursion of [build_tree]
    always comes to an end. *)
Theorem train_faults root data_vec sampled f :
  (sampled = [] -> data_vec !! 0 <> Some []) ->
  DecisionTree.train root data_vec sampled = Fault f ->
  f = OutOfRange \/ (f = LengthError /\ [] ∈ data_vec).
Proof.
  unfold DecisionTree.train. intros Hfirst Hrun.
  destruct sampled as [|fi rest].
  - destruct (data_vec !! 0) as [row0|] eqn:Hrow0.
    + rewrite (proj2 (vec_at_Ok data_vec 0 row0) Hrow0) in Hrun.
      cbn [mbind result_bind] in Hrun.
      destruct row0 as [|x row0]; [by destruct Hfirst | ].
      cbn [length mbind result_bind] in Hrun.
      by apply train_build_faults in Hrun.
    + left. unfold vec_at in Hrun. rewrite Hrow0 in Hrun.
      simpl in Hrun. by injection Hrun as <-.
  - cbn [mbind result_bind] in Hrun. by apply train_build_faults in Hrun.
Qed.

(** A dataset with an empty row is never trained on: [train] returns no
    tree for it, whatever the feature set. *)
Theorem train_empty_row root data_vec sampled :
  [] ∈ data_vec ->
  forall tree, DecisionTree.train root data_vec sampled <> Ok tree.
Proof.
  intros Hin tree Hrun. unfold DecisionTree.train in Hrun.
  apply bind_Ok in Hrun as (candidates & _ & Hrun).
  apply bind_Ok in Hrun as (p & Hsplit & _).
  by rewrite split_rows_empty_row in Hsplit.
Qed.

(** The tree builder only reorders the rows of its range. *)
Lemma build_tree_frame_aux labels sampled fuel :
  forall node features start end_ node' fs,
    DecisionTree.build_tree fuel node features labels start end_ sampled
    = Ok (node', fs) ->
    fs ≡ₚ features /\
    forall k, k < start \/ end_ <= k -> fs !! k = features !! k.
Proof.
  induction fuel as [|fuel IH];
    intros node features start end_ node' fs Hrun; [done | ].
  simpl in Hrun. destruct (Nat.leb_spec end_ start) as [Hle|Hlt].
  { by injection Hrun as <- <-. }
  apply bind_Ok in Hrun as ([|] & Hleaf & Hrun).
  { apply bind_Ok in Hrun as (l & _ & [= <- <-]). done. }
  apply should_be_leaf_false in Hleaf.
  apply bind_Ok in Hrun as (b & _ & Hrun).
  apply bind_Ok in Hrun as ([mid fs1] & Hpart & Hrun).
  apply bind_Ok in Hrun as ([l fs2] & Hl & Hrun).
  apply bind_Ok in Hrun as ([r fs3] & Hr & [= <- <-]).
  pose proof (partition_data_progress _ _ _ _ _ _ _ Hleaf Hpart) as Hmid.
  apply partition_data_unfold in Hpart as (p & Hloop & _).
  apply partition_loop_inv in Hloop as [sigma Hinv].
  pose proof (partition_inv_length _ _ _ _ _ _ _ Hinv) as Hlen.
  destruct Hinv as [_ _ _ Hsame Hrows Hfix _ _]. simpl in *.
  apply IH in Hl as [Hperm2 Hout2]. apply IH in Hr as [Hperm3 Hout3].
  split; [by rewrite Hperm3, Hperm2 | ].
  intros k Hk. rewrite Hout3, Hout2 by lia.
  destruct (decide (k < length features)) as [Hkl|Hkl].
  - rewrite Hrows, Hfix by lia. done.
  - rewrite !lookup_ge_None_2 by lia. done.
Qed.

(** [build_tree] returns the feature matrix with the same rows: those
    outside the range where they were, those of the range in some
    order. *)
Theorem build_tree_frame fuel node features labels start end_ sampled
    node' fs :
  DecisionTree.build_tree fuel node features labels start end_ sampled
  = Ok (node', fs) ->
  fs ≡ₚ features /\
  length fs = length features /\
  forall k, k < start \/ end_ <= k -> fs !! k = features !! k.
Proof.
  intros Hrun. apply build_tree_frame_aux in Hrun as [Hperm Hout].
  split; [done | ]. split; [by rewrite Hperm | done].
Qed.

End TreeFacts.


Section TreeUse.
Context `{!DoubleOps, !Platform}.

(** The split search returns the feature it started with or one of the
    candidates. *)
Lemma search_split_feature features labels start end_ sampled : forall b b',
  DecisionTree.search_split features labels start end_ sampled b = Ok b' ->
  DecisionTree.best_feature b' = DecisionTree.best_feature b \/
  DecisionTree.best_feature b' ∈ sampled.
Proof.
  induction sampled as [|fi rest IH]; intros b b' Hrun; simpl in Hrun.
  - injection Hrun as <-. by left.
  - apply bind_Ok in Hrun as (r & _ & Hrun).
    apply IH in Hrun as [Heq|Hin]; [ | right; by right].
    destruct (dlt _ _); simpl in Heq; [right; rewrite Heq; by left | by left].
Qed.

(** A search in which no candidate offers a split keeps its start. *)
Lemma search_split_none features labels start end_ sampled : forall b b',
  dlt dmax (DecisionTree.best_split_gini b) = false ->
  (forall fi r, fi ∈ sampled ->
     DecisionTree.find_best_split features labels start end_ fi = Ok r ->
     DecisionTree.gini r = dmax) ->
  DecisionTree.search_split features labels start end_ sampled b = Ok b' ->
  b' = b.
Proof.
  induction sampled as [|fi rest IH]; intros b b' Hmax Hnone Hrun;
    simpl in Hrun.
  - by injection Hrun as <-.
  - apply bind_Ok in Hrun as (r & Hr & Hrun).
    rewrite (Hnone fi r) in Hrun by (done || by left).
    rewrite Hmax in Hrun. apply IH in Hrun; [done | done | ].
    intros fi' r' Hin. apply Hnone. by right.
Qed.

(** When the labels of the range differ and no candidate feature
    separates two adjacent rows of it, [build_tree] goes on with
    [best_feature = -1] and reads column -1 of a row. *)
Theorem build_tree_constant_features fuel node features labels start end_
    sampled :
  dlt dmax dmax = false ->
  DecisionTree.should_be_leaf labels start end_ = Ok false ->
  (forall fi i a b, fi ∈ sampled -> start <= i -> S i < end_ ->
     column features fi i = Ok a -> column features fi (S i) = Ok b ->
     dneq a b = false) ->
  DecisionTree.build_tree (S fuel) node features labels start end_ sampled
  = Fault OutOfRange.
Proof.
  intros Hmax Hleaf Hconst.
  pose proof (should_be_leaf_false _ _ _ Hleaf) as Hsize.
  simpl. destruct (Nat.leb_spec end_ start) as [Hle|_]; [lia | ].
  rewrite Hleaf. cbn [mbind result_bind].
  destruct (DecisionTree.search_split features labels start end_ sampled _)
    as [b|f] eqn:Hsearch.
  - apply search_split_none in Hsearch as ->; [ | done | ].
    + cbn [mbind result_bind DecisionTree.best_feature].
      rewrite partition_data_negative_index by lia. done.
    + intros fi r Hfi Hr.
      assert (Hrange : start < end_) by lia.
      destruct (find_best_split_threshold_aux _ _ _ _ _ _ Hrange Hr)
        as [[Hg _]|(i & a & b' & Hi & Hi' & Ha & Hb & Hne & _)]; [done | ].
      rewrite (Hconst fi i a b') in Hne by done. discriminate.
  - rewrite (search_split_oor _ _ _ _ _ _ f Hsearch). done.
Qed.

(** The label of a leaf is a label of its range. *)
Lemma determine_label_in_range labels start end_ l :
  start < end_ ->
  DecisionTree.determine_label labels start end_ = Ok l ->
  exists k, start <= k < end_ /\ labels !! k = Some l.
Proof.
  intros Hlt Hrun. unfold DecisionTree.determine_label in Hrun.
  apply bind_Ok in Hrun as (counts & Hcounts & [= <-]).
  pose proof (count_labels_bound _ _ _ _ Hcounts Hlt) as Hend.
  rewrite count_labels_tally in Hcounts by done. injection Hcounts as <-.
  apply label_range_elem.
  destruct (majority_scan_tally (label_range labels start end_)) as [Hin _];
    [ | done].
  destruct (lookup_lt_is_Some_2 labels start) as [l0 Hl0]; [lia | ].
  intros Hnil.
  assert (l0 ∈ label_range labels start end_) as Hin
    by (apply label_range_elem; exists start; split; [lia | done]).
  rewrite Hnil in Hin. by apply not_elem_of_nil in Hin.
Qed.

(** A tree built on a non-empty range answers every query that has the
    candidate features; when the nodes it started from are not flagged
    as leaves, the answer is a label of the range. *)
Lemma build_tree_predict labels sampled query fuel :
  (forall fi, fi ∈ sampled -> (0 <= fi < Z.of_nat (length query))%Z) ->
  forall node features start end_ node' fs,
    DecisionTree.build_tree fuel node features labels start end_ sampled
    = Ok (node', fs) ->
    start < end_ ->
    exists l,
      DecisionTree.predict node' query = Ok l /\
      (is_leaf node = false -> is_leaf new_Node = false ->
       exists k, start <= k < end_ /\ labels !! k = Some l).
Proof.
  intros Hquery.
  induction fuel as [|fuel IH];
    intros node features start end_ node' fs Hrun Hlt; [done | ].
  simpl in Hrun. destruct (Nat.leb_spec end_ start) as [Hle|_]; [lia | ].
  apply bind_Ok in Hrun as ([|] & Hleaf & Hrun).
  { apply bind_Ok in Hrun as (l & Hl & [= <- <-]).
    exists l. split; [done | ]. intros _ _.
    by apply determine_label_in_range. }
  apply should_be_leaf_false in Hleaf.
  apply bind_Ok in Hrun as (b & Hb & Hrun).
  apply bind_Ok in Hrun as ([mid fs1] & Hpart & Hrun).
  apply bind_Ok in Hrun as ([l fs2] & Hl & Hrun).
  apply bind_Ok in Hrun as ([r fs3] & Hr & [= <- <-]).
  pose proof (partition_data_progress _ _ _ _ _ _ _ Hleaf Hpart) as Hmid.
  assert (Hfi : DecisionTree.best_feature b ∈ sampled).
  { apply search_split_feature in Hb as [Heq|Hin]; [ | done].
    simpl in Heq. rewrite partition_data_negative_index in Hpart;
      [done | lia | lia]. }
  apply Hquery in Hfi.
  destruct (IH _ _ _ _ _ _ Hl) as (ll & Hpl & Hll); [lia | ].
  destruct (IH _ _ _ _ _ _ Hr) as (lr & Hpr & Hlr); [lia | ].
  destruct (lookup_lt_is_Some_2 query (Z.to_nat (DecisionTree.best_feature b)))
    as [v Hv]; [lia | ].
  assert (Hcol : vec_at_int query (DecisionTree.best_feature b) = Ok v).
  { unfold vec_at_int. destruct (Z.ltb_spec (DecisionTree.best_feature b) 0);
      [lia | by apply vec_at_Ok]. }
  unfold DecisionTree.make_split.
  cbn [DecisionTree.predict]. rewrite Hcol.
  destruct (is_leaf node) eqn:Hnode.
  { eexists. split; [done | ]. done. }
  destruct (dlt v _).
  - exists ll. split; [done | ]. intros _ Hnew.
    destruct (Hll Hnew Hnew) as (k & Hk & Hlk). exists k. split; [lia | done].
  - exists lr. split; [done | ]. intros _ Hnew.
    destruct (Hlr Hnew Hnew) as (k & Hk & Hlk). exists k. split; [lia | done].
Qed.

Lemma split_rows_labels data_vec : forall features labels,
  DecisionTree.split_rows data_vec = Ok (features, labels) ->
  forall k l, labels !! k = Some l ->
    exists row x, data_vec !! k = Some row /\ last row = Some x /\
                  l = to_int x.
Proof.
  induction data_vec as [|row rest IH]; intros features labels Hrun k l Hl;
    simpl in Hrun.
  - injection Hrun as <- <-. done.
  - apply bind_Ok in Hrun as ([f x] & Hrow & Hrun).
    apply bind_Ok in Hrun as ([fs ls] & Hrest & [= <- <-]).
    unfold DecisionTree.split_row in Hrow.
    destruct (last row) as [x'|] eqn:Hlast; [ | done].
    injection Hrow as <- <-.
    destruct k as [|k]; simpl in Hl.
    + injection Hl as <-. by exists row, x'.
    + by apply (IH _ _ Hrest).
Qed.

(** The candidate features [train] takes when none are given: the
    columns before the last one of the first row. *)
Lemma train_default_candidates m fi :
  fi ∈ iteration_order (Z.of_nat <$> seq 0 m) ->
  (0 <= fi < Z.of_nat m)%Z.
Proof.
  rewrite iteration_order_perm. intros (j & -> & Hj)%list_elem_of_fmap.
  apply elem_of_seq in Hj. lia.
Qed.

Lemma train_answers root data_vec tree row0 query :
  DecisionTree.train root data_vec [] = Ok tree ->
  data_vec !! 0 = Some row0 ->
  length row0 <= S (length query) ->
  exists l, DecisionTree.predict tree query = Ok l.
Proof.
  intros Hrun Hrow0 Hwidth.
  destruct (train_default_Ok _ _ _ _ Hrun Hrow0)
    as (m & features & labels & fs & Hm & Hsplit & Hbuild).
  assert (Hq : forall fi, fi ∈ iteration_order (Z.of_nat <$> seq 0 m) ->
                (0 <= fi < Z.of_nat (length query))%Z)
    by (intros fi Hfi%train_default_candidates; lia).
  destruct (build_tree_predict labels _ query _ Hq _ _ _ _ _ _ Hbuild)
    as (l & Hl & _).
  - apply lookup_lt_Some in Hrow0. lia.
  - by exists l.
Qed.

(** A tree trained with the default feature set answers every query that
    has as many features as the first row of the dataset: [predict] reads
    inside the query and never follows an empty child. *)
Theorem train_predict_runs root data_vec tree row0 query :
  DecisionTree.train root data_vec [] = Ok tree ->
  data_vec !! 0 = Some row0 ->
  length row0 <= S (length query) ->
  exists l, DecisionTree.predict tree query = Ok l.
Proof. apply train_answers. Qed.

(** When neither the root nor a default-constructed node is flagged as
    a leaf, the label such a tree predicts is the label of a row of the
    dataset it was trained on. *)
Theorem train_predict_label root data_vec tree row0 query l :
  is_leaf root = false -> is_leaf new_Node = false ->
  DecisionTree.train root data_vec [] = Ok tree ->
  data_vec !! 0 = Some row0 ->
  length row0 <= S (length query) ->
  DecisionTree.predict tree query = Ok l ->
  exists row x, row ∈ data_vec /\ last row = Some x /\ l = to_int x.
Proof.
  intros Hroot Hnew Hrun Hrow0 Hwidth Hpred.
  destruct (train_default_Ok _ _ _ _ Hrun Hrow0)
    as (m & features & labels & fs & Hm & Hsplit & Hbuild).
  assert (Hq : forall fi, fi ∈ iteration_order (Z.of_nat <$> seq 0 m) ->
                (0 <= fi < Z.of_nat (length query))%Z)
    by (intros fi Hfi%train_default_candidates; lia).
  destruct (build_tree_predict labels _ query _ Hq _ _ _ _ _ _ Hbuild)
    as (l' & Hl' & Hlab).
  - apply lookup_lt_Some in Hrow0. lia.
  - rewrite Hpred in Hl'. injection Hl' as <-.
    destruct (Hlab Hroot Hnew) as (k & _ & Hk).
    destruct (split_rows_labels _ _ _ Hsplit k l Hk) as (row & x & Hr & Hx & ->).
    exists row, x. split; [by eapply list_elem_of_lookup_2 | done].
Qed.

End TreeUse.


(** ** The split index of partition_data *)

Section PivotFacts.
Context `{!DoubleOps}.

Lemma take_drop_snoc {A} (l : list A) start j x :
  start <= j -> l !! j = Some x ->
  take (S j - start) (drop start l) = take (j - start) (drop start l) ++ [x].
Proof.
  intros Hj Hx. replace (S j - start) with (S (j - start)) by lia.
  apply take_S_r. rewrite lookup_drop.
  by replace (start + (j - start)) with j by lia.
Qed.

(** The pivot of the loop counts the rows seen so far that are below the
    threshold. *)
Lemma partition_loop_count features start end_ fi th p fs :
  DecisionTree.partition_loop features start end_ fi th = Ok (p, fs) ->
  p = start + length (filter (fun row => is_below fi th row = true)
                        (take (end_ - start) (drop start features))).
Proof.
  unfold DecisionTree.partition_loop. intros Hrun.
  apply (for_range_inv
    (fun j st =>
       (exists sigma, partition_inv features start fi th j st sigma) /\
       fst st = start + length (filter (fun row => is_below fi th row = true)
                                  (take (j - start) (drop start features)))))
    in Hrun.
  - destruct Hrun as [_ Hcount]. simpl in Hcount.
    by replace (start + (end_ - start) - start) with (end_ - start)
      in Hcount by lia.
  - split; [eexists; apply partition_inv_init | ].
    simpl. by rewrite Nat.sub_diag, Nat.add_0_r.
  - intros j [mid fs0] [mid' fs'] Hj [[sigma Hinv] Hcount] Hstep.
    split; [by eapply partition_step_inv | ].
    pose proof (partition_inv_length _ _ _ _ _ _ _ Hinv) as Hlen.
    destruct Hinv as [_ _ _ _ Hrows Hfix _ _]. simpl in *.
    unfold DecisionTree.partition_step in Hstep.
    apply bind_Ok in Hstep as (row & Hrow & Hstep).
    apply bind_Ok in Hstep as (v & Hv & Hstep).
    apply vec_at_Ok in Hrow.
    pose proof (lookup_lt_Some _ _ _ Hrow) as Hjl.
    assert (Hfj : features !! j = Some row).
    { rewrite Hrows, Hfix in Hrow by lia. done. }
    assert (Hb : is_below fi th row = dlt v th)
      by (unfold is_below; by rewrite Hv).
    rewrite (take_drop_snoc _ _ _ row) by (done || lia).
    rewrite filter_app, length_app, filter_cons, filter_nil.
    case_decide as Hd; cbv beta in Hd; rewrite Hb in Hd;
      destruct (dlt v th); try done.
    + apply bind_Ok in Hstep as (fs1 & _ & [= <- <-]).
      cbn [length]. lia.
    + injection Hstep as <- <-. cbn [length]. lia.
Qed.

(** [partition_data] returns [start] plus the number of rows of the
    range that are below the threshold, unless that number is 0 or the
    length of the range: it then returns the middle of the range. *)
Theorem partition_data_split_index features start end_ fi th mid fs :
  start <= end_ ->
  DecisionTree.partition_data features start end_ fi th = Ok (mid, fs) ->
  mid =
    (let c := length (filter (fun row => is_below fi th row = true)
                        (take (end_ - start) (drop start features))) in
     if (c =? 0) || (c =? end_ - start)
     then start + (end_ - start) / 2
     else start + c).
Proof.
  intros Hle Hrun.
  apply partition_data_unfold in Hrun as (p & Hloop & ->).
  apply partition_loop_count in Hloop. cbv zeta.
  set (c := length _) in *. subst p.
  destruct (Nat.eqb_spec (start + c) start), (Nat.eqb_spec (start + c) end_),
    (Nat.eqb_spec c 0), (Nat.eqb_spec c (end_ - start)); cbn [orb];
    reflexivity || lia.
Qed.

End PivotFacts.


(** ** Rows picked through an index vector *)

Section RowFacts.
Context {A : Type}.
Implicit Types (data : list A) (indices : list nat).

Lemma omap_lookup_seq {B} (g : nat -> option B) (l : list nat) :
  forall pre,
    omap (fun j => (pre ++ l) !! j ≫= g) (seq (length pre) (length l))
    = omap g l.
Proof.
  induction l as [|x l IH]; intros pre; [done | ].
  specialize (IH (pre ++ [x])).
  rewrite <- app_assoc, length_app in IH. simpl in IH.
  rewrite Nat.add_1_r in IH.
  simpl. rewrite (lookup_app_r pre) by lia. rewrite Nat.sub_diag. simpl.
  unfold omap in IH. by rewrite IH.
Qed.

Lemma rows_at_identity_from data : forall pre,
  omap ((pre ++ data) !!.) (seq (length pre) (length data)) = data.
Proof.
  induction data as [|x data IH]; intros pre; [done | ].
  specialize (IH (pre ++ [x])).
  rewrite <- app_assoc, length_app in IH. simpl in IH.
  rewrite Nat.add_1_r in IH.
  simpl. rewrite (lookup_app_r pre) by lia. rewrite Nat.sub_diag. simpl.
  unfold omap in IH. by rewrite IH.
Qed.

Lemma rows_at_identity data :
  omap (data !!.) (seq 0 (length data)) = data.
Proof. apply (rows_at_identity_from data []). Qed.

(** The rows picked at all the positions of a shuffled index vector are
    the rows of the dataset, each once. *)
Lemma rows_at_perm data indices :
  indices ≡ₚ seq 0 (length data) ->
  rows_at data indices (seq 0 (length data)) ≡ₚ data.
Proof.
  intros Hperm. unfold rows_at.
  assert (Hlen : length indices = length data)
    by (by rewrite Hperm, length_seq).
  rewrite <- Hlen. rewrite (omap_lookup_seq (data !!.) indices []).
  rewrite Hperm. by rewrite rows_at_identity.
Qed.

Lemma push_rows_spec data indices from n out out' :
  RandomForest.push_rows data indices from n out = Ok out' ->
  out' = out ++ rows_at data indices (seq from n) /\
  length out' = length out + n.
Proof.
  unfold RandomForest.push_rows. intros Hrun.
  apply (for_range_inv
    (fun j acc => acc = out ++ rows_at data indices (seq from (j - from)) /\
                  length acc = length out + (j - from))) in Hrun.
  - by replace (from + n - from) with n in Hrun by lia.
  - rewrite Nat.sub_diag. simpl. by rewrite app_nil_r, Nat.add_0_r.
  - intros j acc acc' Hj [-> Hlen] Hstep.
    apply bind_Ok in Hstep as (idx & Hidx & Hstep).
    apply bind_Ok in Hstep as (row & Hrow & [= <-]).
    apply vec_at_Ok in Hidx, Hrow.
    replace (S j - from) with (S (j - from)) by lia.
    rewrite seq_S, rows_at_app, app_assoc.
    replace (from + (j - from)) with j by lia.
    rewrite (rows_at_singleton _ _ j idx row) by done.
    split; [done | ]. rewrite length_app, Hlen. simpl. lia.
Qed.

(** [splitData] on a shuffled index vector: the split index lies between
    0 and the number of rows; the rows of the positions before it are
    appended to the training rows and the others to the test rows; no
    row is lost and none is taken twice. *)
Theorem splitData_partition `{!DoubleOps} data indices train_data test_data
    (test_size : double) train' test' :
  indices ≡ₚ seq 0 (length data) ->
  RandomForest.splitData data indices train_data test_data test_size
  = Ok (train', test') ->
  exists k,
    to_int (dmul (of_size (length data)) (dsub (of_int 1) test_size))
    = Z.of_nat k /\
    k <= length data /\
    train' = train_data ++ rows_at data indices (seq 0 k) /\
    test' = test_data ++ rows_at data indices (seq k (length data - k)) /\
    length train' = length train_data + k /\
    length test' = length test_data + (length data - k) /\
    train' ++ test' ≡ₚ train_data ++ test_data ++ data.
Proof.
  intros Hperm. unfold RandomForest.splitData.
  set (si := to_int _). intros Hrun.
  assert (Hlen : length indices = length data)
    by (by rewrite Hperm, length_seq).
  apply bind_Ok in Hrun as (tr & Htr & Hrun).
  apply bind_Ok in Hrun as (te & Hte & [= <- <-]).
  destruct (Z.ltb_spec si 0) as [Hneg|Hpos]; [done | ].
  assert (Hk : Z.to_nat si <= length data).
  { destruct (decide (Z.to_nat si <= length data)) as [?|Hbig]; [done | ].
    exfalso. unfold RandomForest.push_rows in Htr.
    apply (for_range_inv (fun j _ => j <= length data)) in Htr; [lia | lia | ].
    intros j t t' Hj _ Hstep.
    apply bind_Ok in Hstep as (idx & Hidx & _). apply vec_at_Ok in Hidx.
    apply lookup_lt_Some in Hidx. lia. }
  apply push_rows_spec in Htr as [-> Hltr], Hte as [-> Hlte].
  exists (Z.to_nat si). rewrite Z2Nat.id by lia.
  replace (Z.to_nat (Z.of_nat (length data) - si))
    with (length data - Z.to_nat si) in * by lia.
  assert (Hall : rows_at data indices (seq 0 (Z.to_nat si))
                 ++ rows_at data indices
                      (seq (Z.to_nat si) (length data - Z.to_nat si))
                 ≡ₚ data).
  { rewrite <- rows_at_app.
    change (seq (Z.to_nat si)) with (seq (0 + Z.to_nat si)).
    rewrite <- seq_app.
    replace (Z.to_nat si + (length data - Z.to_nat si)) with (length data)
      by lia.
    by apply rows_at_perm. }
  repeat split; try done.
  transitivity
    (train_data ++ test_data
     ++ (rows_at data indices (seq 0 (Z.to_nat si))
         ++ rows_at data indices
              (seq (Z.to_nat si) (length data - Z.to_nat si))));
    [ | by rewrite Hall].
  rewrite <- !app_assoc. apply Permutation_app_head.
  rewrite !app_assoc. apply Permutation_app_tail, Permutation_app_comm.
Qed.

(** A bootstrap sample has as many rows as the data, row [j] of the
    sample being the row of the data that draw [j] points to. *)
Theorem createBootstrapSample_rows data (draw : nat -> nat) :
  (forall j, j < length data -> draw j < length data) ->
  exists samples,
    RandomForest.createBootstrapSample data draw = Ok samples /\
    length samples = length data /\
    forall j, j < length data -> samples !! j = data !! draw j.
Proof.
  intros Hdraw. unfold RandomForest.createBootstrapSample.
  destruct (for_range_runs
    (fun j samples =>
       length samples = j /\
       forall i, i < j -> samples !! i = data !! draw i)
    (fun j samples => row ← vec_at data (draw j); Ok (samples ++ [row]))
    0 (length data) []) as (samples & Hrun & Hlen & Hrows).
  - split; [done | intros; lia].
  - intros j samples Hj [Hlen Hrows].
    destruct (lookup_lt_is_Some_2 data (draw j)) as [row Hrow];
      [apply Hdraw; lia | ].
    apply vec_at_Ok in Hrow as Hrow'. rewrite Hrow'.
    cbn [mbind result_bind]. eexists. split; [done | ].
    split; [rewrite length_app; simpl; lia | ].
    intros i Hi. destruct (decide (i = j)) as [->|Hne].
    + by rewrite lookup_app_r, Hlen, Nat.sub_diag by lia.
    + rewrite lookup_app_l by lia. apply Hrows. lia.
  - exists samples. split; [done | ]. split; [done | ]. done.
Qed.

End RowFacts.


(** ** Training a forest *)

Section ForestTrainFacts.
Context `{!DoubleOps, !Platform}.

Lemma rows_at_elem {A} (data : list A) indices js row :
  row ∈ rows_at data indices js -> row ∈ data.
Proof.
  unfold rows_at. intros (j & _ & Hj)%list_elem_of_omap.
  destruct (indices !! j) as [idx|]; simpl in Hj; [ | done].
  by eapply list_elem_of_lookup_2.
Qed.

Lemma createBootstrapSample_elem {A} (data : list A) draw samples row :
  RandomForest.createBootstrapSample data draw = Ok samples ->
  row ∈ samples -> row ∈ data.
Proof.
  unfold RandomForest.createBootstrapSample. intros Hrun. revert row.
  refine (for_range_inv (fun _ acc => forall row, row ∈ acc -> row ∈ data)
            _ _ _ _ _ _ _ Hrun); [by intros ? ?%not_elem_of_nil | ].
  intros j acc acc' _ Hacc Hstep.
  apply bind_Ok in Hstep as (r & Hr & [= <-]). apply vec_at_Ok in Hr.
  intros row' [Hin|Hin%list_elem_of_singleton]%elem_of_app; [by apply Hacc | ].
  subst. by eapply list_elem_of_lookup_2.
Qed.

(** The loop of [train] over the trees: tree [i] is replaced by the
    result of training it on its bootstrap sample. *)
Lemma train_loop train_data (drawn : nat -> nat -> nat) n trees trees' :
  for_range 0 n
    (fun i trees =>
       bootstrap_sample ←
         RandomForest.createBootstrapSample train_data (drawn i);
       tree ← vec_at trees i;
       tree' ← DecisionTree.train tree bootstrap_sample [];
       Ok (<[i := tree']> trees))
    trees = Ok trees' ->
  length trees' = length trees /\
  (0 < n -> n <= length trees) /\
  (forall i, i < n ->
     exists old sample new,
       trees !! i = Some old /\
       RandomForest.createBootstrapSample train_data (drawn i) = Ok sample /\
       DecisionTree.train old sample [] = Ok new /\
       trees' !! i = Some new) /\
  (forall i, n <= i -> trees' !! i = trees !! i).
Proof.
  intros Hrun.
  apply (for_range_inv
    (fun j cur =>
       length cur = length trees /\
       (0 < j -> j <= length trees) /\
       (forall i, i < j ->
          exists old sample new,
            trees !! i = Some old /\
            RandomForest.createBootstrapSample train_data (drawn i)
            = Ok sample /\
            DecisionTree.train old sample [] = Ok new /\
            cur !! i = Some new) /\
       (forall i, j <= i -> cur !! i = trees !! i))) in Hrun; [done | | ].
  - split; [done | ]. split; [lia | ]. split; [intros; lia | done].
  - intros j cur cur' _ (Hlen & Hbound & Hdone & Hrest) Hstep.
    apply bind_Ok in Hstep as (sample & Hsample & Hstep).
    apply bind_Ok in Hstep as (old & Hold & Hstep).
    apply bind_Ok in Hstep as (new & Hnew & [= <-]).
    apply vec_at_Ok in Hold. pose proof (lookup_lt_Some _ _ _ Hold) as Hj.
    split; [by rewrite length_insert | ]. split; [lia | ]. split.
    + intros i Hi. destruct (decide (i = j)) as [->|Hne].
      * exists old, sample, new. rewrite <- Hrest by lia.
        split; [done | ]. split; [done | ]. split; [done | ].
        by apply list_lookup_insert_eq.
      * destruct (Hdone i) as (o & sm & nw & ? & ? & ? & ?); [lia | ].
        exists o, sm, nw. by rewrite list_lookup_insert_ne.
    + intros i Hi. rewrite list_lookup_insert_ne by lia. apply Hrest. lia.
Qed.

(** [RandomForest::train] keeps the number of trees; it trains each of
    the first [num_trees_] trees on a bootstrap sample of the training
    part of the data and leaves any further tree as it was. *)
Theorem forest_train_trees forest data_vec r forest' :
  RandomForest.train forest data_vec r = Ok forest' ->
  RandomForest.num_trees_ forest' = RandomForest.num_trees_ forest /\
  length (RandomForest.trees_ forest') = length (RandomForest.trees_ forest) /\
  exists train_data test_data,
    RandomForest.splitData data_vec (RandomForest.shuffled r) [] []
      RandomForest.test_fraction = Ok (train_data, test_data) /\
    (forall i, i < Z.to_nat (RandomForest.num_trees_ forest) ->
       exists old sample new,
         RandomForest.trees_ forest !! i = Some old /\
         RandomForest.createBootstrapSample train_data
           (RandomForest.drawn r i) = Ok sample /\
         DecisionTree.train old sample [] = Ok new /\
         RandomForest.trees_ forest' !! i = Some new) /\
    (forall i, Z.to_nat (RandomForest.num_trees_ forest) <= i ->
       RandomForest.trees_ forest' !! i = RandomForest.trees_ forest !! i).
Proof.
  unfold RandomForest.train. intros Hrun.
  apply bind_Ok in Hrun as ([train_data test_data] & Hsplit & Hrun).
  apply bind_Ok in Hrun as (trees' & Hloop & [= <-]). simpl.
  apply train_loop in Hloop as (Hlen & _ & Hdone & Hrest).
  split; [done | ]. split; [done | ].
  exists train_data, test_data. done.
Qed.

Lemma for_each_predict_runs query trees :
  (forall tree, tree ∈ trees ->
     exists l, DecisionTree.predict tree query = Ok l) ->
  forall vote_count,
  exists vote_count',
    for_each trees
      (fun tree vote_count =>
         prediction ← DecisionTree.predict tree query;
         Ok (map_incr prediction vote_count))
      vote_count = Ok vote_count'.
Proof.
  induction trees as [|tree trees IH]; intros Hall vote_count; simpl.
  - by eexists.
  - destruct (Hall tree) as [l Hl]; [by left | ]. rewrite Hl.
    cbn [mbind result_bind]. apply IH. intros t Ht. apply Hall. by right.
Qed.

(** A forest built by the constructor and trained on a dataset whose
    rows have at most [w + 1] columns answers every query of [w]
    features or more: no tree reads outside the query or follows an empty
    child. *)
Theorem forest_predict_runs num_trees forest data_vec r forest' query :
  RandomForest.create num_trees = Ok forest ->
  RandomForest.train forest data_vec r = Ok forest' ->
  (forall row, row ∈ data_vec -> length row <= S (length query)) ->
  exists l, RandomForest.predict forest' query = Ok l.
Proof.
  intros Hcreate Htrain Hwidth.
  unfold RandomForest.create in Hcreate.
  destruct (Z.ltb_spec num_trees 0) as [?|Hn]; [done | ].
  injection Hcreate as <-.
  unfold RandomForest.train in Htrain. simpl in Htrain.
  apply bind_Ok in Htrain as ([train_data test_data] & Hsplit & Htrain).
  apply bind_Ok in Htrain as (trees' & Hloop & [= <-]).
  apply train_loop in Hloop as (Hlen & _ & Hdone & _).
  rewrite length_replicate in Hlen.
  unfold RandomForest.splitData in Hsplit.
  apply bind_Ok in Hsplit as (tr & Htr & Hsplit).
  apply bind_Ok in Hsplit as (te & _ & [= <- <-]).
  apply push_rows_spec in Htr as [-> _]. simpl in Hdone.
  unfold RandomForest.predict. simpl.
  enough (Hall : forall tree, tree ∈ trees' ->
            exists l, DecisionTree.predict tree query = Ok l).
  { destruct (for_each_predict_runs query trees' Hall []) as [vc Hvc].
    rewrite Hvc. cbn [mbind result_bind]. by eexists. }
  - intros tree [i Hi]%list_elem_of_lookup.
    destruct (Hdone i) as (old & sample & new & _ & Hsample & Hnew & Hi').
    { apply lookup_lt_Some in Hi. lia. }
    rewrite Hi in Hi'. injection Hi' as <-.
    assert (exists row0, sample !! 0 = Some row0) as [row0 Hrow0].
    { unfold DecisionTree.train in Hnew.
      destruct (sample !! 0) as [row0|] eqn:Hs; [by eexists | ].
      unfold vec_at in Hnew. by rewrite Hs in Hnew. }
    apply (train_answers old sample tree row0); [done | done | ].
    apply Hwidth. eapply rows_at_elem.
    eapply createBootstrapSample_elem; [exact Hsample | ].
    by eapply list_elem_of_lookup_2.
Qed.

Lemma push_rows_empty {A} indices from m (out : list A) :
  RandomForest.push_rows [] indices from (S m) out = Fault OutOfRange.
Proof.
  unfold RandomForest.push_rows. simpl.
  destruct (vec_at indices from) as [idx|f] eqn:Hidx; [done | ].
  by rewrite (vec_at_oor _ _ f Hidx).
Qed.

Lemma train_empty_map (forest : RandomForest.t) r :
  (0 < RandomForest.num_trees_ forest)%Z ->
  RandomForest.train forest [] r = Fault OutOfRange.
Proof.
  intros Hn.
  unfold RandomForest.train, RandomForest.splitData. simpl length.
  set (si := to_int _).
  destruct (Z.to_nat si) as [|m] eqn:Hsi.
  - cbn [RandomForest.push_rows for_range mbind result_bind].
    destruct (Z.ltb_spec si 0) as [Hneg|Hpos]; [done | ].
    replace (Z.to_nat (Z.of_nat 0 - si)) with 0 by lia.
    cbn [RandomForest.push_rows for_range mbind result_bind].
    destruct (Z.to_nat (RandomForest.num_trees_ forest)) as [|k] eqn:Hk;
      [lia | ].
    cbn [for_range RandomForest.createBootstrapSample length
         mbind result_bind].
    destruct (vec_at (RandomForest.trees_ forest) 0) as [tree|f] eqn:Ht.
    + done.
    + by rewrite (vec_at_oor _ _ f Ht).
  - by rewrite push_rows_empty.
Qed.

(** On an empty dataset a forest with a tree to train reads outside a
    vector, in both versions of [train]. *)
Theorem forest_train_empty (forest : RandomForest.t)
    (forest' : RandomForestAlt.t) r rand_value :
  (0 < RandomForest.num_trees_ forest)%Z ->
  RandomForestAlt.trees_ forest' <> [] ->
  RandomForest.train forest [] r = Fault OutOfRange /\
  RandomForestAlt.train forest' [] rand_value = Fault OutOfRange.
Proof.
  intros Hn Htrees. split; [by apply train_empty_map | ].
  unfold RandomForestAlt.train.
  destruct (RandomForestAlt.trees_ forest') as [|tree trees]; [done | ].
  done.
Qed.

(** With [k = 1] the only fold tests on all the rows and trains on none:
    the cross-validation of a forest that has trees ends in the training
    of that fold, by a read outside a vector. *)
Theorem kfold_one_fold (forest : RandomForest.t) (data : list (list double))
    indices draws :
  indices ≡ₚ seq 0 (length data) ->
  (0 < RandomForest.num_trees_ forest)%Z ->
  RandomForest.fold_sets data indices (Z.of_nat (length data)) 0
    (Z.of_nat (length data))
  = Ok ([], rows_at data indices (seq 0 (length data))) /\
  RandomForest.kFoldCrossValidation forest data 1 indices draws
  = Fault OutOfRange /\
  KFoldCrossValidation.perform data 1 (RandomForest.num_trees_ forest)
    indices draws
  = Fault OutOfRange.
Proof.
  intros Hperm Hn.
  destruct (shuffled_indices _ _ Hperm) as (Hlen & _ & Hidx & _).
  assert (Hsets :
    RandomForest.fold_sets data indices (Z.of_nat (length data)) 0
      (Z.of_nat (length data))
    = Ok ([], rows_at data indices (seq 0 (length data)))).
  { pose proof (fold_sets_range data indices (length data) 0 (length data)
                  ltac:(lia) Hlen Hidx) as Hf.
    rewrite Nat.sub_diag, Nat.sub_0_r in Hf. exact Hf. }
  assert (Hscore :
    RandomForest.fold_score (RandomForest.num_trees_ forest) data indices
      draws 1 0 = Fault OutOfRange).
  { assert (Hb : RandomForest.fold_bounds (Z.of_nat (length data)) 1
                   (Z.of_nat 0) = (0%Z, Z.of_nat (length data)))
      by reflexivity.
    unfold RandomForest.fold_score. rewrite Hb.
    rewrite Hsets. cbn [mbind result_bind].
    unfold RandomForest.create.
    destruct (Z.ltb_spec (RandomForest.num_trees_ forest) 0); [lia | ].
    cbn [mbind result_bind]. by rewrite train_empty_map. }
  split; [done | ].
  unfold RandomForest.kFoldCrossValidation, KFoldCrossValidation.perform.
  change (1 =? 0)%Z with false. change (Z.to_nat 1) with 1.
  cbn [for_range]. by rewrite Hscore.
Qed.

(** In each fold the training set and the test set hold, together, the
    rows of the dataset, each once. *)
Theorem fold_sets_partition (data : list (list double)) (k : Z) indices i :
  (1 <= k <= Z.of_nat (length data))%Z ->
  indices ≡ₚ seq 0 (length data) ->
  (0 <= i < k)%Z ->
  exists trainSet testSet,
    RandomForest.fold_sets data indices (Z.of_nat (length data))
      (fst (RandomForest.fold_bounds (Z.of_nat (length data)) k i))
      (snd (RandomForest.fold_bounds (Z.of_nat (length data)) k i))
    = Ok (trainSet, testSet) /\
    testSet <> [] /\
    trainSet ++ testSet ≡ₚ data.
Proof.
  intros Hk Hperm Hi.
  destruct (shuffled_indices _ _ Hperm) as (Hlen & _ & Hidx & _).
  destruct (fold_bounds_spec _ k i Hk Hi) as (Hb & Hq & Hs & He & _).
  destruct (RandomForest.fold_bounds _ k i) as [s e]. simpl in *.
  injection Hb as Hs' He'.
  assert (Es : Z.of_nat (Z.to_nat s) = s) by lia.
  assert (Ee : Z.of_nat (Z.to_nat e) = e) by lia.
  revert Es Ee. generalize (Z.to_nat s) (Z.to_nat e). intros s' e' Es Ee.
  rewrite <- Es, <- Ee.
  rewrite (fold_sets_range data indices (length data) s' e')
    by (lia || done).
  do 2 eexists. split; [done | ]. split.
  - intros Hnil. apply (f_equal length) in Hnil.
    rewrite rows_at_length, length_seq in Hnil; [simpl in Hnil; lia | | done].
    intros j. rewrite elem_of_seq. lia.
  - transitivity (rows_at data indices (seq 0 (length data)));
      [ | by apply rows_at_perm].
    assert (Hseq : seq 0 (length data)
                   = seq 0 s' ++ seq s' (e' - s') ++ seq e' (length data - e')).
    { replace (length data) with (s' + ((e' - s') + (length data - e')))
        at 1 by lia.
      rewrite !seq_app. simpl. by replace (s' + (e' - s')) with e' by lia. }
    rewrite Hseq, !rows_at_app, <- app_assoc.
    apply Permutation_app_head, Permutation_app_comm.
Qed.

End ForestTrainFacts.


(** ** Accuracy *)

Section AccuracyFacts.
Context `{!DoubleOps}.

Lemma count_rows_cons {A} (f : A -> bool) x l :
  count_rows f (x :: l) = ((if f x then 1 else 0) + count_rows f l)%Z.
Proof.
  unfold count_rows. rewrite filter_cons.
  destruct (f x); [rewrite decide_True by done | rewrite decide_False by done];
    simpl; lia.
Qed.

Lemma count_rows_bound {A} (f : A -> bool) l :
  (0 <= count_rows f l <= Z.of_nat (length l))%Z.
Proof.
  induction l as [|x l IH]; [done | ].
  rewrite count_rows_cons. simpl length. destruct (f x); lia.
Qed.

(** The counting loop of [evaluate] adds one for each row on which the
    prediction is the label. *)
Lemma count_correct_from predict test_data : forall c0 c,
  for_each test_data
    (fun data_point correct_predictions =>
       '(features, l) ← DecisionTree.split_row data_point;
       let true_label := to_int l in
       predicted ← predict features;
       Ok (if (predicted =? true_label)%Z
           then (correct_predictions + 1)%Z
           else correct_predictions)) c0 = Ok c ->
  c = (c0 + count_rows (is_correct predict) test_data)%Z.
Proof.
  induction test_data as [|row rest IH]; intros c0 c Hrun; simpl in Hrun.
  - injection Hrun as <-. unfold count_rows. simpl. lia.
  - apply bind_Ok in Hrun as (c1 & Hstep & Hrun).
    apply bind_Ok in Hstep as ([features l] & Hrow & Hstep).
    apply bind_Ok in Hstep as (predicted & Hp & [= <-]).
    apply IH in Hrun as ->. rewrite count_rows_cons.
    unfold is_correct at 2. rewrite Hrow, Hp.
    destruct (predicted =? to_int l)%Z; lia.
Qed.

(** [evaluate], in both versions, returns the number of rows whose
    prediction is their label, as a [double], divided by the number of
    rows; the number lies between 0 and the number of rows. *)
Theorem evaluate_ratio (forest : RandomForest.t) (forest' : RandomForestAlt.t)
    test_data :
  (forall v, RandomForest.evaluate forest test_data = Ok v ->
     v = ddiv (of_int (count_rows (is_correct (RandomForest.predict forest))
                         test_data))
              (of_size (length test_data))) /\
  (forall v, RandomForestAlt.evaluate forest' test_data = Ok v ->
     v = ddiv (of_int (count_rows
                         (is_correct (RandomForestAlt.predict forest'))
                         test_data))
              (of_size (length test_data))) /\
  (forall predict,
     0 <= count_rows (is_correct predict) test_data
     <= Z.of_nat (length test_data))%Z.
Proof.
  split; [ | split].
  - intros v Hrun. unfold RandomForest.evaluate in Hrun.
    apply bind_Ok in Hrun as (c & Hc & [= <-]).
    apply count_correct_from in Hc as ->. by rewrite Z.add_0_l.
  - intros v Hrun. unfold RandomForestAlt.evaluate in Hrun.
    apply bind_Ok in Hrun as (c & Hc & [= <-]).
    apply count_correct_from in Hc as ->. by rewrite Z.add_0_l.
  - intros predict. apply count_rows_bound.
Qed.

(** The four counters of [evaluate_accuracy] after the rows. *)
Lemma metrics_from predict test_data : forall m0 m,
  for_each test_data
    (fun sample m =>
       '(features, l) ← RandomForest.pop_label sample;
       let true_label := to_int l in
       predicted_label ← predict features;
       Ok (if (predicted_label =? true_label)%Z then
             if (predicted_label =? 1)%Z
             then RandomForest.mkMetrics (RandomForest.true_positives m + 1)
                    (RandomForest.true_negatives m)
                    (RandomForest.false_positives m)
                    (RandomForest.false_negatives m) (RandomForest.accuracy m)
             else RandomForest.mkMetrics (RandomForest.true_positives m)
                    (RandomForest.true_negatives m + 1)
                    (RandomForest.false_positives m)
                    (RandomForest.false_negatives m) (RandomForest.accuracy m)
           else
             if (predicted_label =? 1)%Z
             then RandomForest.mkMetrics (RandomForest.true_positives m)
                    (RandomForest.true_negatives m)
                    (RandomForest.false_positives m + 1)
                    (RandomForest.false_negatives m) (RandomForest.accuracy m)
             else RandomForest.mkMetrics (RandomForest.true_positives m)
                    (RandomForest.true_negatives m)
                    (RandomForest.false_positives m)
                    (RandomForest.false_negatives m + 1)
                    (RandomForest.accuracy m)))
    m0 = Ok m ->
  (RandomForest.true_positives m
   = RandomForest.true_positives m0
     + count_rows (fun row => is_correct predict row && says_one predict row)
         test_data)%Z /\
  (RandomForest.false_positives m
   = RandomForest.false_positives m0
     + count_rows (fun row => negb (is_correct predict row)
                              && says_one predict row) test_data)%Z /\
  (RandomForest.true_positives m + RandomForest.true_negatives m
   = RandomForest.true_positives m0 + RandomForest.true_negatives m0
     + count_rows (is_correct predict) test_data)%Z /\
  (RandomForest.true_positives m + RandomForest.true_negatives m
   + RandomForest.false_positives m + RandomForest.false_negatives m
   = RandomForest.true_positives m0 + RandomForest.true_negatives m0
     + RandomForest.false_positives m0 + RandomForest.false_negatives m0
     + Z.of_nat (length test_data))%Z.
Proof.
  induction test_data as [|row rest IH]; intros m0 m Hrun; simpl in Hrun.
  - injection Hrun as <-. unfold count_rows. simpl. lia.
  - apply bind_Ok in Hrun as (m1 & Hstep & Hrun).
    apply bind_Ok in Hstep as ([features l] & Hrow & Hstep).
    apply bind_Ok in Hstep as (p & Hp & [= <-]).
    assert (Hrow' : DecisionTree.split_row row = Ok (features, l)).
    { unfold RandomForest.pop_label in Hrow. unfold DecisionTree.split_row.
      by destruct (last row). }
    clear Hrow. rename Hrow' into Hrow.
    apply IH in Hrun as (Htp & Hfp & Hc & Htot).
    rewrite !count_rows_cons. simpl length.
    unfold is_correct at 1 3 5, says_one at 1 3. rewrite Hrow, Hp.
    destruct (p =? to_int l)%Z, (p =? 1)%Z; simpl in *; lia.
Qed.

(** [evaluate_accuracy] counts every row once: the four counters add up
    to the number of rows, the two "true" counters to the number of rows
    predicted right, and the "positive" counters hold the rows predicted
    1; the accuracy is 0 on no row and 100 times the share of the rows
    predicted right otherwise. *)
Theorem evaluate_accuracy_counts (forest : RandomForest.t) test_data m :
  RandomForest.evaluate_accuracy forest test_data = Ok m ->
  (RandomForest.true_positives m
   = count_rows (fun row => is_correct (RandomForest.predict forest) row
                            && says_one (RandomForest.predict forest) row)
       test_data) /\
  (RandomForest.false_positives m
   = count_rows (fun row => negb (is_correct (RandomForest.predict forest) row)
                            && says_one (RandomForest.predict forest) row)
       test_data) /\
  (RandomForest.true_positives m + RandomForest.true_negatives m
   = count_rows (is_correct (RandomForest.predict forest)) test_data)%Z /\
  (RandomForest.true_positives m + RandomForest.true_negatives m
   + RandomForest.false_positives m + RandomForest.false_negatives m
   = Z.of_nat (length test_data))%Z /\
  RandomForest.accuracy m
  = (if decide (test_data = []) then of_int 0
     else ddiv (dmul (of_int 100)
                 (of_int (count_rows (is_correct (RandomForest.predict forest))
                            test_data)))
               (of_int (Z.of_nat (length test_data)))).
Proof.
  unfold RandomForest.evaluate_accuracy. intros Hrun.
  apply bind_Ok in Hrun as (m1 & Hloop & [= <-]).
  apply metrics_from in Hloop as (Htp & Hfp & Hc & Htot). simpl in *.
  split; [lia | ]. split; [lia | ]. split; [lia | ]. split; [lia | ].
  rewrite Z.add_0_l in Hc, Htot. rewrite Htot, Hc.
  destruct test_data as [|row rest]; [done | ].
  rewrite decide_False by done.
  destruct (Z.eqb_spec (Z.of_nat (length (row :: rest))) 0) as [Hz|_];
    [simpl in Hz; lia | done].
Qed.

(** ** The range of the alternate predict *)

Lemma for_each_vote_length query trees : forall votes votes',
  for_each trees
    (fun tree votes =>
       prediction ← DecisionTree.predict tree query;
       RandomForestAlt.vote votes prediction)
    votes = Ok votes' ->
  length votes' = length votes.
Proof.
  induction trees as [|tree trees IH]; intros votes votes' Hrun;
    simpl in Hrun.
  - by injection Hrun as <-.
  - apply bind_Ok in Hrun as (votes1 & Hstep & Hrun).
    apply bind_Ok in Hstep as (p & _ & Hvote).
    unfold RandomForestAlt.vote in Hvote.
    apply bind_Ok in Hvote as (v & _ & [= <-]).
    apply IH in Hrun. by rewrite length_insert in Hrun.
Qed.

(** Whatever the trees predict, the alternate [predict] returns a
    position of its vote vector: a label from 0 to [num_trees - 1] (0
    when the forest has no tree). *)
Theorem alt_predict_range (forest : RandomForestAlt.t) query r :
  RandomForestAlt.predict forest query = Ok r ->
  (0 <= r < Z.max 1 (RandomForestAlt.num_trees_ forest))%Z.
Proof.
  unfold RandomForestAlt.predict, RandomForestAlt.new_votes. intros Hrun.
  apply bind_Ok in Hrun as (votes & Hnew & Hrun).
  apply bind_Ok in Hrun as (votes' & Hloop & [= <-]).
  destruct (Z.ltb_spec (RandomForestAlt.num_trees_ forest) 0); [done | ].
  injection Hnew as <-.
  apply for_each_vote_length in Hloop. rewrite length_replicate in Hloop.
  destruct votes' as [|x rest] eqn:Hv; [simpl; lia | ].
  destruct (max_element_spec (x :: rest)) as (rv & Hrv & _); [done | ].
  apply lookup_lt_Some in Hrv. lia.
Qed.

End AccuracyFacts.


(** * Concrete runs *)

Section ConcreteRuns.
#[local] Existing Instance exact_ops.
#[local] Existing Instance exact_platform.
Local Open Scope Q_scope.

Lemma build_tree_terminates_witness :
  (0 + 2 <= 5)%nat /\
  DecisionTree.partition_data five_rows 0 5 0 4
  = Ok (2%nat, [[3]; [1]; [5]; [9]; [7]]) /\
  (0 < 2 < 5)%nat.
Proof.
  split; [lia | ]. split; [reflexivity | ].
  apply (proj1 (@build_tree_terminates exact_ops exact_platform)
           five_rows 0%nat 5%nat 0%Z 4 2%nat [[3]; [1]; [5]; [9]; [7]]).
  - lia.
  - reflexivity.
Defined.

Lemma partition_data_prefix_witness :
  (0 <= 5)%nat /\
  exists p,
    (0 <= p <= 5)%nat /\
    (forall k, (0 <= k < p)%nat ->
       exists row, ([[3]; [1]; [5]; [9]; [7]] : list (list double)) !! k
                   = Some row /\ below 0 4 row) /\
    (forall k, (p <= k < 5)%nat ->
       exists row, ([[3]; [1]; [5]; [9]; [7]] : list (list double)) !! k
                   = Some row /\ not_below 0 4 row) /\
    2%nat = (if (p =? 0)%nat || (p =? 5)%nat then (0 + (5 - 0) / 2)%nat else p) /\
    ((0 < p < 5)%nat -> 2%nat = p).
Proof.
  split; [lia | ].
  apply (@partition_data_prefix exact_ops five_rows 0%nat 5%nat 0%Z 4 2%nat
           [[3]; [1]; [5]; [9]; [7]]).
  - lia.
  - reflexivity.
Defined.

(** C2 as stated fails: no row of [two_rows] is below the threshold, the
    split point returned is the middle 1, and the row before it holds 5. *)
Lemma partition_data_prefix_counterexample :
  exists mid fs',
    DecisionTree.partition_data two_rows 0 2 0 1 = Ok (mid, fs') /\
    ~ (forall k row, (0 <= k < mid)%nat -> fs' !! k = Some row ->
         below 0 1 row).
Proof.
  exists 1%nat, two_rows. split; [reflexivity | ].
  intros Hall. destruct (Hall 0%nat [5]) as (v & Hv & Hlt); [lia | done | ].
  injection Hv as <-. discriminate Hlt.
Qed.

Lemma partition_data_frame_witness :
  DecisionTree.partition_data five_rows 0 5 0 4
  = Ok (2%nat, [[3]; [1]; [5]; [9]; [7]]) /\
  ([[3]; [1]; [5]; [9]; [7]] : list (list double)) ≡ₚ five_rows.
Proof.
  split; [reflexivity | ].
  apply (@partition_data_frame exact_ops five_rows [1; 1; 0; 1; 0]%Z
           0%nat 5%nat 0%Z 4 2%nat [[3]; [1]; [5]; [9]; [7]]).
  reflexivity.
Defined.

Lemma predict_majority_witness :
  RandomForest.tree_votes (RandomForest.trees_ (leaf_forest [1; 1; 0]%Z)) []
  = Ok [1; 1; 0]%Z /\
  exists r,
    RandomForest.predict (leaf_forest [1; 1; 0]%Z) [] = Ok r /\
    (forall l, (votes_for l [1; 1; 0] <= votes_for r [1; 1; 0])%Z) /\
    (forall l, l ∈ [1; 1; 0]%Z ->
       votes_for l [1; 1; 0]%Z = votes_for r [1; 1; 0]%Z -> (r <= l)%Z) /\
    ([1; 1; 0]%Z <> [] -> r ∈ [1; 1; 0]%Z).
Proof.
  split; [reflexivity | ].
  apply (@predict_majority exact_ops
           (leaf_forest [1; 1; 0]%Z) [] [1; 1; 0]%Z).
  reflexivity.
Defined.


(** A run of the cross-validation: five folds of two rows, every score 1. *)
Example kfold_run :
  RandomForest.kFoldCrossValidation (leaf_forest [1; 1; 1]%Z) ten_rows 5
    ten_shuffled eight_row_draws = Ok 1 /\
  RandomForest.fold_sets ten_rows ten_shuffled 10 0 2
  = Ok ([[5; 1]; [1; 1]; [10; 1]; [3; 1]; [7; 1]; [6; 1]; [9; 1]; [8; 1]],
        [[4; 1]; [2; 1]]).
Proof. split; reflexivity. Qed.

(** With a single fold the training set is empty, and the training of the
    first tree reads row 0 of it. *)
Example kfold_single_fold :
  RandomForest.kFoldCrossValidation (leaf_forest [1; 1; 1]%Z) ten_rows 1
    ten_shuffled eight_row_draws = Fault OutOfRange.
Proof. reflexivity. Qed.

Lemma purity_stopping_rule_witness :
  (0 < 3)%nat /\
  DecisionTree.build_tree 1 new_Node [[5]; [7]; [3]] [1; 1; 1]%Z 0 3 [0%Z]
  = Ok (DecisionTree.make_leaf new_Node 1, [[5]; [7]; [3]]) /\
  (exists node',
     DecisionTree.build_tree 3 new_Node [[1]; [2]] [0; 1]%Z 0 2 [0%Z]
     = Ok (node', [[1]; [2]]) /\
     exists b,
       node' = DecisionTree.make_split new_Node b
                 (DecisionTree.make_leaf new_Node 0)
                 (DecisionTree.make_leaf new_Node 1)).
Proof.
  destruct (@purity_stopping_rule exact_ops exact_platform)
    as (Hpure & _ & _ & Htwo).
  split; [lia | ]. split.
  - apply (Hpure 0%nat new_Node [[5]; [7]; [3]] [1; 1; 1]%Z 0%nat 3%nat
             [0%Z] 1%Z).
    + lia.
    + intros [|[|[|k]]] Hk; try reflexivity. lia.
  - assert (Hrun : exists node',
              DecisionTree.build_tree 3 new_Node [[1]; [2]] [0; 1]%Z 0 2
                [0%Z] = Ok (node', [[1]; [2]]))
      by (eexists; reflexivity).
    destruct Hrun as [node' Hrun]. exists node'. split; [exact Hrun | ].
    refine (Htwo 1%nat new_Node _ [0; 1]%Z 0%nat [0%Z] 0%Z 1%Z node' _
              _ _ _ Hrun).
    + reflexivity.
    + reflexivity.
    + discriminate.
Defined.

(** Recursion down to ranges of one row: two rows of different labels give
    a split node over two leaves. *)
Example singleton_leaves :
  exists node l r,
    DecisionTree.build_tree 3 new_Node [[1]; [2]] [0; 1]%Z 0 2 [0%Z]
    = Ok (node, [[1]; [2]]) /\
    left_child node = Some l /\ right_child node = Some r /\
    DecisionTree.build_tree 2 new_Node [[1]; [2]] [0; 1]%Z 0 1 [0%Z]
    = Ok (l, [[1]; [2]]) /\
    DecisionTree.build_tree 2 new_Node [[1]; [2]] [0; 1]%Z 1 2 [0%Z]
    = Ok (r, [[1]; [2]]) /\
    is_leaf l = true /\ label l = 0%Z /\ is_leaf r = true /\ label r = 1%Z.
Proof. do 3 eexists. repeat split; reflexivity. Qed.

Lemma build_tree_without_candidates_witness :
  DecisionTree.should_be_leaf [0; 1]%Z 0 2 = Ok false /\
  DecisionTree.build_tree 3 new_Node [[]; []] [0; 1]%Z 0 2 []
  = Fault OutOfRange.
Proof.
  split; [reflexivity | ].
  apply (@build_tree_without_candidates exact_ops exact_platform
           2%nat new_Node [[]; []] [0; 1]%Z 0%nat 2%nat).
  reflexivity.
Defined.

(** The same through [train], on a dataset of one column. *)
Example train_label_only_rows :
  DecisionTree.train new_Node label_only_rows [] = Fault OutOfRange.
Proof. reflexivity. Qed.

(** A candidate set that is not empty does no better when the feature
    has one value only: no split beats the initial [best_gini]. *)
Example train_constant_feature :
  DecisionTree.train new_Node [[3; 0]; [3; 1]] [] = Fault OutOfRange.
Proof. reflexivity. Qed.

Lemma predict_versions_agree_witness :
  exists r,
    RandomForest.predict (leaf_forest [1; 1; 0]%Z) [] = Ok r /\
    RandomForestAlt.predict (leaf_forest_alt [1; 1; 0]%Z) [] = Ok r /\
    r = 1%Z.
Proof.
  destruct (@predict_versions_agree exact_ops
              (leaf_forest [1; 1; 0]%Z) (leaf_forest_alt [1; 1; 0]%Z)
              [] [1; 1; 0]%Z) as (r & Hmap & Halt & _).
  - reflexivity.
  - reflexivity.
  - discriminate.
  - repeat (constructor; [simpl; lia | ]). constructor.
  - exists r. split; [exact Hmap | ]. split; [exact Halt | ].
    vm_compute in Hmap. injection Hmap as <-. reflexivity.
Defined.

(** C9 as stated fails on forests without trees: all the conditions hold
    of the empty list of predictions, the vote map yields its initial -1
    and the vote vector the position 0. *)
Lemma predict_versions_counterexample :
  exists forest forest',
    RandomForest.create 0 = Ok forest /\
    RandomForestAlt.create 0 = Ok forest' /\
    RandomForest.tree_votes (RandomForest.trees_ forest) [] = Ok [] /\
    RandomForest.tree_votes (RandomForestAlt.trees_ forest') [] = Ok [] /\
    Forall (fun p => (0 <= p < RandomForestAlt.num_trees_ forest')%Z) [] /\
    RandomForest.predict forest [] = Ok (-1)%Z /\
    RandomForestAlt.predict forest' [] = Ok 0%Z /\
    RandomForest.predict forest [] <> RandomForestAlt.predict forest' [].
Proof.
  exists (RandomForest.mk 0 []), (RandomForestAlt.mk 0 []).
  repeat split; try reflexivity; [constructor | discriminate].
Qed.

Lemma alt_predict_in_bounds_witness :
  (0 <= RandomForestAlt.num_trees_ (leaf_forest_alt [1%Z]))%Z /\
  RandomForest.tree_votes (RandomForestAlt.trees_ (leaf_forest_alt [1%Z])) []
  = Ok [1%Z] /\
  RandomForestAlt.predict (leaf_forest_alt [1%Z]) [] = Fault OutOfRange.
Proof.
  split; [simpl; lia | ]. split; [reflexivity | ].
  apply (proj1 (proj2 (@alt_predict_in_bounds exact_ops
           (leaf_forest_alt [1%Z]) [] [1%Z] ltac:(simpl; lia) eq_refl))).
  intros Hall. apply Forall_cons in Hall as [Hp _]. simpl in Hp. lia.
Defined.

(** The forest of the witness is what training yields on rows that all
    have label 1. *)
Example alt_predict_after_training :
  exists forest forest',
    RandomForestAlt.create 1 = Ok forest /\
    RandomForestAlt.train forest [[5; 1]; [6; 1]] (fun _ _ => 7%Z)
    = Ok forest' /\
    RandomForestAlt.predict forest' [5] = Fault OutOfRange.
Proof. do 2 eexists. repeat split; reflexivity. Qed.

End ConcreteRuns.

(** * Concrete runs of the further properties *)

Section FurtherRuns.
#[local] Existing Instance exact_ops.
#[local] Existing Instance exact_platform.
Local Open Scope Q_scope.

Lemma partition_data_runs_witness :
  exists mid fs',
    DecisionTree.partition_data five_rows 1 4 0 4 = Ok (mid, fs').
Proof.
  apply (@partition_data_runs exact_ops five_rows 1%nat 4%nat 0%Z 4).
  - simpl. lia.
  - intros [|[|[|[|k]]]] row Hk Hrow; try lia;
      injection Hrow as <-; by eexists.
Defined.

Lemma determine_label_majority_witness :
  exists r,
    DecisionTree.determine_label tied_labels 0 5 = Ok r /\
    (exists k, (0 <= k < 5)%nat /\ tied_labels !! k = Some r) /\
    (forall l, (votes_for l (label_range tied_labels 0 5)
                <= votes_for r (label_range tied_labels 0 5))%Z) /\
    (forall l k, (0 <= k < 5)%nat -> tied_labels !! k = Some l ->
       votes_for l (label_range tied_labels 0 5)
       = votes_for r (label_range tied_labels 0 5) -> (r <= l)%Z).
Proof.
  apply (determine_label_majority tied_labels 0%nat 5%nat).
  simpl. lia.
Defined.

Lemma should_be_leaf_iff_witness :
  exists b,
    DecisionTree.should_be_leaf tied_labels 1 3 = Ok b /\
    (b = true <->
     exists l, forall k, (1 <= k < 3)%nat -> tied_labels !! k = Some l).
Proof.
  apply (should_be_leaf_iff tied_labels 1%nat 3%nat). simpl. lia.
Defined.


Lemma find_best_split_constant_witness :
  (0 < 2)%nat /\
  DecisionTree.find_best_split constant_rows [0; 1]%Z 0 2 0
  = Ok (@DecisionTree.mkSplitResult exact_ops dmax (of_int 0)).
Proof.
  split; [lia | ].
  destruct (DecisionTree.find_best_split constant_rows [0; 1]%Z 0 2 0)
    as [r|f] eqn:Hrun; [ | discriminate Hrun].
  destruct (@find_best_split_constant exact_ops constant_rows [0; 1]%Z
              0%nat 2%nat 0%Z r) as [Hg Ht].
  - lia.
  - intros [|i] a b Hi Hi' Ha Hb; [ | lia].
    injection Ha as <-. injection Hb as <-. reflexivity.
  - exact Hrun.
  - destruct r as [g t]. simpl in Hg, Ht. by rewrite Hg, Ht.
Defined.

(** On [end = 0] the bound [end - 1] of the sweep wraps, and the sweep
    goes on until it reads outside the vectors. *)
Example find_best_split_end_zero :
  DecisionTree.find_best_split constant_rows [0; 1]%Z 0 0 0
  = Fault OutOfRange.
Proof. reflexivity. Qed.

Lemma train_faults_witness :
  (([] : list Z) = [] -> with_empty_row !! 0%nat <> Some []) /\
  DecisionTree.train new_Node with_empty_row [] = Fault LengthError /\
  (LengthError = OutOfRange \/
   LengthError = LengthError /\ [] ∈ with_empty_row).
Proof.
  assert (Hfirst : ([] : list Z) = [] -> with_empty_row !! 0%nat <> Some [])
    by (intros _; discriminate).
  split; [exact Hfirst | ]. split; [reflexivity | ].
  apply (@train_faults exact_ops exact_platform new_Node with_empty_row []
           LengthError).
  - exact Hfirst.
  - reflexivity.
Defined.

Lemma train_empty_row_witness :
  [] ∈ with_empty_row /\
  forall tree, DecisionTree.train new_Node with_empty_row [] <> Ok tree.
Proof.
  assert (Hin : [] ∈ with_empty_row)
    by (right; left).
  split; [exact Hin | ].
  apply (@train_empty_row exact_ops exact_platform new_Node
           with_empty_row []).
  exact Hin.
Defined.

Lemma build_tree_frame_witness :
  exists node' fs,
    DecisionTree.build_tree 4 new_Node mixed_features [5; 0; 1; 5]%Z
      1 3 [0%Z] = Ok (node', fs) /\
    fs ≡ₚ mixed_features /\
    length fs = 4%nat /\
    forall k, (k < 1 \/ 3 <= k)%nat ->
      fs !! k = mixed_features !! k.
Proof.
  destruct (DecisionTree.build_tree 4 new_Node mixed_features
              [5; 0; 1; 5]%Z 1 3 [0%Z]) as [[node' fs]|f] eqn:Hrun;
    [ | discriminate Hrun].
  exists node', fs. split; [reflexivity | ].
  apply (@build_tree_frame exact_ops exact_platform 4%nat new_Node
           mixed_features [5; 0; 1; 5]%Z 1%nat 3%nat [0%Z] node' fs).
  exact Hrun.
Defined.

Lemma build_tree_constant_features_witness :
  DecisionTree.build_tree 3 new_Node constant_rows [0; 1]%Z 0 2 [0%Z]
  = Fault OutOfRange.
Proof.
  apply (@build_tree_constant_features exact_ops exact_platform 2%nat
           new_Node constant_rows [0; 1]%Z 0%nat 2%nat [0%Z]).
  - reflexivity.
  - reflexivity.
  - intros fi [|i] a b Hfi Hi Hi' Ha Hb; [ | lia].
    apply list_elem_of_singleton in Hfi as ->.
    injection Ha as <-. injection Hb as <-. reflexivity.
Defined.

Lemma train_predict_runs_witness :
  exists tree l,
    DecisionTree.train new_Node sorted_rows [] = Ok tree /\
    DecisionTree.predict tree [4] = Ok l.
Proof.
  destruct (DecisionTree.train new_Node sorted_rows []) as [tree|f] eqn:Hrun;
    [ | discriminate Hrun].
  destruct (@train_predict_runs exact_ops exact_platform new_Node
              sorted_rows tree [1; 0] [4]) as [l Hl].
  - exact Hrun.
  - reflexivity.
  - simpl. lia.
  - by exists tree, l.
Defined.

Lemma train_predict_label_witness :
  exists tree row x,
    DecisionTree.train new_Node sorted_rows [] = Ok tree /\
    DecisionTree.predict tree [4] = Ok 1%Z /\
    row ∈ sorted_rows /\ last row = Some x /\ 1%Z = to_int x.
Proof.
  destruct (DecisionTree.train new_Node sorted_rows []) as [tree|f] eqn:Hrun;
    [ | discriminate Hrun].
  assert (Hp : DecisionTree.predict tree [4] = Ok 1%Z).
  { vm_compute in Hrun. injection Hrun as <-. reflexivity. }
  destruct (@train_predict_label exact_ops exact_platform new_Node
              sorted_rows tree [1; 0] [4] 1%Z) as (row & x & Hin & Hx & Hl).
  - reflexivity.
  - reflexivity.
  - exact Hrun.
  - reflexivity.
  - simpl. lia.
  - exact Hp.
  - by exists tree, row, x.
Defined.

Lemma partition_data_split_index_witness :
  DecisionTree.partition_data five_rows 0 5 0 4
  = Ok (2%nat, [[3]; [1]; [5]; [9]; [7]]) /\
  2%nat =
    (let c := length (filter (fun row => is_below 0 4 row = true)
                        (take (5 - 0) (drop 0 five_rows))) in
     if (c =? 0)%nat || (c =? 5 - 0)%nat
     then (0 + (5 - 0) / 2)%nat else (0 + c)%nat).
Proof.
  split; [reflexivity | ].
  apply (@partition_data_split_index exact_ops five_rows 0%nat 5%nat 0%Z 4
           2%nat [[3]; [1]; [5]; [9]; [7]]).
  - lia.
  - reflexivity.
Defined.

Lemma splitData_partition_witness :
  [4; 0; 3; 1; 2]%nat ≡ₚ seq 0 (length five_labelled) /\
  exists train' test',
    RandomForest.splitData five_labelled [4; 0; 3; 1; 2]%nat [] []
      RandomForest.test_fraction = Ok (train', test') /\
    length train' = 4%nat /\ length test' = 1%nat /\
    train' ++ test' ≡ₚ five_labelled.
Proof.
  assert (Hperm : [4; 0; 3; 1; 2]%nat ≡ₚ seq 0 (length five_labelled)).
  { apply (bool_decide_unpack _). vm_compute. reflexivity. }
  split; [exact Hperm | ].
  destruct (RandomForest.splitData five_labelled [4; 0; 3; 1; 2]%nat [] []
              RandomForest.test_fraction) as [[train' test']|f] eqn:Hrun;
    [ | discriminate Hrun].
  destruct (@splitData_partition (list double) exact_ops five_labelled
              [4; 0; 3; 1; 2]%nat [] [] RandomForest.test_fraction
              train' test' Hperm Hrun)
    as (k & Hk & _ & _ & _ & Hltr & Hlte & Hall).
  exists train', test'. split; [reflexivity | ].
  assert (k = 4%nat) as -> by (change (4%Z = Z.of_nat k) in Hk; lia).
  split; [exact Hltr | ]. split; [exact Hlte | exact Hall].
Defined.

Lemma createBootstrapSample_rows_witness :
  exists samples,
    RandomForest.createBootstrapSample five_labelled
      (fun j => ((j * 3) mod 5)%nat) = Ok samples /\
    length samples = length five_labelled /\
    forall j, (j < length five_labelled)%nat ->
      samples !! j = five_labelled !! ((j * 3) mod 5)%nat.
Proof.
  apply (@createBootstrapSample_rows (list double) five_labelled
           (fun j => ((j * 3) mod 5)%nat)).
  intros j _. apply Nat.mod_upper_bound. simpl. lia.
Defined.

Lemma forest_train_trees_witness :
  exists forest forest',
    RandomForest.create 2 = Ok forest /\
    RandomForest.train forest two_labelled two_row_draws = Ok forest' /\
    RandomForest.num_trees_ forest' = RandomForest.num_trees_ forest /\
    length (RandomForest.trees_ forest')
    = length (RandomForest.trees_ forest).
Proof.
  destruct (RandomForest.train (RandomForest.mk 2 (replicate 2 new_Node))
              two_labelled two_row_draws) as [forest'|f] eqn:Hrun;
    [ | discriminate Hrun].
  exists (RandomForest.mk 2 (replicate 2 new_Node)), forest'.
  split; [reflexivity | ]. split; [exact Hrun | ].
  destruct (@forest_train_trees exact_ops exact_platform
              (RandomForest.mk 2 (replicate 2 new_Node)) two_labelled
              two_row_draws forest' Hrun) as (Hn & Hlen & _).
  split; [exact Hn | exact Hlen].
Defined.

Lemma forest_predict_runs_witness :
  exists forest forest' l,
    RandomForest.create 2 = Ok forest /\
    RandomForest.train forest two_labelled two_row_draws = Ok forest' /\
    RandomForest.predict forest' [7] = Ok l.
Proof.
  destruct (RandomForest.train (RandomForest.mk 2 (replicate 2 new_Node))
              two_labelled two_row_draws) as [forest'|f] eqn:Hrun;
    [ | discriminate Hrun].
  destruct (@forest_predict_runs exact_ops exact_platform 2%Z
              (RandomForest.mk 2 (replicate 2 new_Node)) two_labelled
              two_row_draws forest' [7]) as [l Hl].
  - reflexivity.
  - exact Hrun.
  - intros row Hrow. unfold two_labelled in Hrow.
    apply elem_of_cons in Hrow as [->|Hrow]; [simpl; lia | ].
    apply list_elem_of_singleton in Hrow as ->. simpl. lia.
  - exists (RandomForest.mk 2 (replicate 2 new_Node)), forest', l.
    split; [reflexivity | ]. split; [exact Hrun | exact Hl].
Defined.

Lemma forest_train_empty_witness :
  RandomForest.train (leaf_forest [1; 1]%Z) [] two_row_draws
  = Fault OutOfRange /\
  RandomForestAlt.train (leaf_forest_alt [1; 1]%Z) [] (fun _ _ => 7%Z)
  = Fault OutOfRange.
Proof.
  apply (@forest_train_empty exact_ops exact_platform
           (leaf_forest [1; 1]%Z) (leaf_forest_alt [1; 1]%Z) two_row_draws
           (fun _ _ => 7%Z)).
  - simpl. lia.
  - discriminate.
Defined.

Lemma kfold_one_fold_witness :
  ten_shuffled ≡ₚ seq 0 (length ten_rows) /\
  RandomForest.kFoldCrossValidation (leaf_forest [1; 1; 1]%Z) ten_rows 1
    ten_shuffled eight_row_draws = Fault OutOfRange.
Proof.
  assert (Hperm : ten_shuffled ≡ₚ seq 0 (length ten_rows)).
  { apply (bool_decide_unpack _). vm_compute. reflexivity. }
  split; [exact Hperm | ].
  apply (@kfold_one_fold exact_ops exact_platform (leaf_forest [1; 1; 1]%Z)
           ten_rows ten_shuffled eight_row_draws Hperm).
  simpl. lia.
Defined.

Lemma fold_sets_partition_witness :
  ten_shuffled ≡ₚ seq 0 (length ten_rows) /\
  exists trainSet testSet,
    RandomForest.fold_sets ten_rows ten_shuffled
      (Z.of_nat (length ten_rows))
      (fst (RandomForest.fold_bounds (Z.of_nat (length ten_rows)) 3 2))
      (snd (RandomForest.fold_bounds (Z.of_nat (length ten_rows)) 3 2))
    = Ok (trainSet, testSet) /\
    testSet <> [] /\
    trainSet ++ testSet ≡ₚ ten_rows.
Proof.
  assert (Hperm : ten_shuffled ≡ₚ seq 0 (length ten_rows)).
  { apply (bool_decide_unpack _). vm_compute. reflexivity. }
  split; [exact Hperm | ].
  apply (@fold_sets_partition exact_ops ten_rows 3%Z ten_shuffled 2%Z).
  - simpl. lia.
  - exact Hperm.
  - lia.
Defined.

Lemma evaluate_accuracy_counts_witness :
  exists m,
    RandomForest.evaluate_accuracy (leaf_forest [1; 1; 0]%Z) five_labelled
    = Ok m /\
    (RandomForest.true_positives m + RandomForest.true_negatives m
     + RandomForest.false_positives m + RandomForest.false_negatives m
     = Z.of_nat (length five_labelled))%Z /\
    RandomForest.true_positives m = 3%Z /\
    RandomForest.false_positives m = 2%Z.
Proof.
  destruct (RandomForest.evaluate_accuracy (leaf_forest [1; 1; 0]%Z)
              five_labelled) as [m|f] eqn:Hrun; [ | discriminate Hrun].
  destruct (@evaluate_accuracy_counts exact_ops (leaf_forest [1; 1; 0]%Z)
              five_labelled m Hrun) as (Htp & Hfp & _ & Htot & _).
  exists m. split; [reflexivity | ]. split; [exact Htot | ].
  split; [rewrite Htp | rewrite Hfp]; reflexivity.
Defined.

Lemma alt_predict_range_witness :
  RandomForestAlt.predict (leaf_forest_alt [2; 0; 2]%Z) [] = Ok 2%Z /\
  (0 <= 2 < Z.max 1 (RandomForestAlt.num_trees_ (leaf_forest_alt [2; 0; 2])))%Z.
Proof.
  split; [reflexivity | ].
  apply (@alt_predict_range exact_ops (leaf_forest_alt [2; 0; 2]%Z) [] 2%Z).
  reflexivity.
Defined.

End FurtherRuns.
